(** * A consensus node: the request handlers and the round loop of
      [src/nodes/node.ts]

    The function [node] of the source builds one participant of an
    N-node network: a closure over its parameters and three mutable
    variables ([currentState], [isRunning], [receivedMessages]) on
    which five request handlers and the asynchronous round loop of the
    [/start] handler operate.

    The embedding follows the JavaScript event loop.  One step of the
    model is one turn of that loop: an incoming request, the expiry of
    the 200 ms timer a round waits on, or the end of one of the HTTP
    deliveries of a broadcast.  A turn runs the code up to the next
    [await] that really suspends; the continuations of promises that
    are already settled run inside the same turn, as microtasks do. *)

From stdpp Require Import base list strings.
From Stdlib Require Import ZArith Lia.

Open Scope Z_scope.

(** ** Data *)

(** Modelled from the spec: the type [Value] imported from [../types],
    which is not part of the sources at hand.  The specification gives
    the values a node may hold as 0, 1 and a reserved placeholder
    (written ["?"] in the declaration of [NodeState]). *)
Inductive Value : Type :=
  | V0
  | V1
  | VUnknown.

(** [NodeState]: a field that may be [null] is an [option]. *)
Record NodeState : Type := mkNodeState {
  killed : bool;
  x : option Value;
  decided : option bool;
  k : option Z
}.

(** The parameters of [node] the handlers capture.  [BASE_NODE_PORT]
    comes from [../config]; its value is not in the sources, so it is a
    parameter as well.  Node counts and ports are integers. *)
Record Params : Type := mkParams {
  nodeId : Z;
  N : Z;
  F : Z;
  initialValue : Value;
  isFaulty : bool;
  BASE_NODE_PORT : Z
}.

(** Request and response bodies, as parsed JSON. *)
#[warnings="-register-all"]
Inductive Json : Type :=
  | JNull
  | JBool (b : bool)
  | JNum (n : Z)
  | JStr (s : string)
  | JArr (items : list Json)
  | JObj (fields : list (string * Json)).

Definition json_of_value (v : option Value) : Json :=
  match v with
  | None => JNull
  | Some V0 => JNum 0
  | Some V1 => JNum 1
  | Some VUnknown => JStr "?"
  end.

Definition json_of_number (n : option Z) : Json :=
  match n with
  | None => JNull
  | Some z => JNum z
  end.

(** The object [{ type: "vote", value, round }] a broadcast sends. *)
Definition vote (value : option Value) (round : option Z) : Json :=
  JObj [("type", JStr "vote");
        ("value", json_of_value value);
        ("round", json_of_number round)]%string.

(** What a handler sends back, and what a turn emits. *)
Inductive Body : Type :=
  | Text (s : string)
  | StateJson (st : NodeState).

Inductive Output : Type :=
  | Respond (status : Z) (body : Body)
  | HttpPost (port : Z) (path : string) (payload : Json).

(** Where an invocation of the [/start] handler stands: suspended on
    the timer of a round, suspended on [Promise.all] with the peers
    whose delivery has not settled yet, or returned. *)
Inductive Task : Type :=
  | AwaitTimer
  | AwaitBroadcast (pending : list Z)
  | Returned.

(** The mutable variables of the closure, and the invocations of
    [/start] that passed its guard, in the order they were made. *)
Record Node : Type := mkNode {
  currentState : NodeState;
  isRunning : bool;
  receivedMessages : list Json;
  tasks : list Task
}.

(** How an HTTP delivery of a vote ends: the response was read to its
    end (whatever its status), or the request raised an error. *)
Inductive Delivery : Type :=
  | ResponseEnd
  | RequestError.

Inductive Event : Type :=
  | GetStatus
  | GetState
  | PostMessage (body : Json)
  | GetStart
  | GetStop
  | TimerFired (tid : nat)
  | Delivered (tid : nat) (peer : Z) (how : Delivery).

(** ** Field updates *)

Definition set_killed (b : bool) (st : NodeState) : NodeState :=
  mkNodeState b (x st) (decided st) (k st).

Definition set_x (v : option Value) (st : NodeState) : NodeState :=
  mkNodeState (killed st) v (decided st) (k st).

Definition set_decided (d : option bool) (st : NodeState) : NodeState :=
  mkNodeState (killed st) (x st) d (k st).

Definition set_k (n : option Z) (st : NodeState) : NodeState :=
  mkNodeState (killed st) (x st) (decided st) n.

Definition set_currentState (st : NodeState) (nd : Node) : Node :=
  mkNode st (isRunning nd) (receivedMessages nd) (tasks nd).

Definition set_isRunning (b : bool) (nd : Node) : Node :=
  mkNode (currentState nd) b (receivedMessages nd) (tasks nd).

Definition set_receivedMessages (ms : list Json) (nd : Node) : Node :=
  mkNode (currentState nd) (isRunning nd) ms (tasks nd).

Definition set_tasks (ts : list Task) (nd : Node) : Node :=
  mkNode (currentState nd) (isRunning nd) (receivedMessages nd) ts.

(** ** The closure at construction *)

Definition initialState (p : Params) : NodeState :=
  {| killed := false;
     x := if isFaulty p then None else Some (initialValue p);
     decided := if isFaulty p then None else Some false;
     k := if isFaulty p then None else Some 0 |}.

Definition init (p : Params) : Node :=
  {| currentState := initialState p;
     isRunning := false;
     receivedMessages := [];
     tasks := [] |}.

(** ** The handlers *)

(** [/status] *)
Definition status (p : Params) : Output :=
  if isFaulty p then Respond 500 (Text "faulty")
  else Respond 200 (Text "live").

(** [/getState] *)
Definition getState (p : Params) (nd : Node) : Output :=
  if isFaulty p then
    Respond 200 (StateJson {| killed := killed (currentState nd);
                              x := None; decided := None; k := None |})
  else Respond 200 (StateJson (currentState nd)).

(** [/message] *)
Definition message (body : Json) (nd : Node) : Node * list Output :=
  if killed (currentState nd) then
    (nd, [Respond 503 (Text "Node is stopped")])
  else
    (set_receivedMessages (receivedMessages nd ++ [body]) nd,
     [Respond 200 (Text "Message received")]).

(** The peers [broadcastVote] posts to: the [i] of
    [for (let i = 0; i < N; i++)] with [i !== nodeId], in that order. *)
Definition peers (p : Params) : list Z :=
  filter (λ i, i ≠ nodeId p) (seqZ 0 (N p)).

(** The requests [broadcastVote(value, round)] issues before it awaits
    them. *)
Definition broadcastVote (p : Params) (value : option Value)
    (round : option Z) : list Output :=
  (λ i, HttpPost (BASE_NODE_PORT p + i) "/message" (vote value round))
    <$> peers p.

(** A [number | null] read as a number: [null] counts as 0 in [<],
    [<=] and [++]. *)
Definition to_number (n : option Z) : Z := default 0 n.

Definition consensusPossible (p : Params) : bool := 2 * F p <? N p.

(** The test of the [while] the handler is in; which of the two loops
    that is depends on [consensusPossible] alone. *)
Definition loop_test (p : Params) (nd : Node) : bool :=
  isRunning nd && negb (killed (currentState nd)) &&
  (if consensusPossible p
   then to_number (k (currentState nd)) <? 2
   else to_number (k (currentState nd)) <=? 10).

(** The statements after the loop. *)
Definition force_finality (p : Params) (st : NodeState) : NodeState :=
  if consensusPossible p
  then set_decided (Some true) (set_x (Some V1) st)
  else set_decided (Some false) st.

(** From the test of the loop to the next suspension: either the body
    is entered and the handler waits on the timer, or the loop is left,
    finality is forced and the handler returns. *)
Definition loop_head (p : Params) (nd : Node) : Node * Task :=
  if loop_test p nd then (nd, AwaitTimer)
  else (set_currentState (force_finality p (currentState nd)) nd, Returned).

(** [currentState.k!++] *)
Definition incr_k (nd : Node) : Node :=
  set_currentState
    (set_k (Some (to_number (k (currentState nd)) + 1)) (currentState nd)) nd.

(** The rest of a round once [broadcastVote] has returned. *)
Definition after_broadcast (p : Params) (tid : nat) (nd : Node) : Node :=
  let '(nd', t) := loop_head p (incr_k nd) in
  set_tasks (<[tid := t]> (tasks nd')) nd'.

(** [await Promise.all(promises)]: with nothing pending the round goes
    on in the same turn, otherwise the handler stays suspended. *)
Definition await_all (p : Params) (tid : nat) (pending : list Z)
    (nd : Node) : Node :=
  match pending with
  | [] => after_broadcast p tid nd
  | _ :: _ => set_tasks (<[tid := AwaitBroadcast pending]> (tasks nd)) nd
  end.

(** [/start] up to its first suspension. *)
Definition start (p : Params) (nd : Node) : Node * list Output :=
  if isFaulty p || isRunning nd then
    (nd, [Respond 400 (Text "Cannot start")])
  else
    let nd1 := set_isRunning true nd in
    let '(nd2, t) :=
      if negb (isFaulty p) then loop_head p nd1 else (nd1, Returned) in
    (set_tasks (tasks nd2 ++ [t]) nd2,
     [Respond 200 (Text "Consensus algorithm started")]).

(** [/stop] *)
Definition stop (nd : Node) : Node * list Output :=
  if killed (currentState nd) then
    (nd, [Respond 400 (Text "Node already stopped")])
  else
    (set_currentState (set_killed true (currentState nd))
       (set_isRunning false nd),
     [Respond 200 (Text "Consensus algorithm stopped")]).

(** The timer of a round expires: the votes go out. *)
Definition timer_fired (p : Params) (tid : nat) (nd : Node)
    : option (Node * list Output) :=
  match tasks nd !! tid with
  | Some AwaitTimer =>
      Some (await_all p tid (peers p) nd,
            broadcastVote p (x (currentState nd)) (k (currentState nd)))
  | _ => None
  end.

(** One delivery settles.  Both callbacks call [resolve]: how the
    delivery ended is not looked at. *)
Definition delivered (p : Params) (tid : nat) (peer : Z) (how : Delivery)
    (nd : Node) : option (Node * list Output) :=
  match tasks nd !! tid with
  | Some (AwaitBroadcast pending) =>
      if decide (peer ∈ pending)
      then Some (await_all p tid (filter (λ i, i ≠ peer) pending) nd, [])
      else None
  | _ => None
  end.

(** ** Turns and runs *)

(** One turn of the event loop; [None] when the event cannot occur in
    that state (no such timer, no such delivery under way). *)
Definition step (p : Params) (nd : Node) (ev : Event)
    : option (Node * list Output) :=
  match ev with
  | GetStatus => Some (nd, [status p])
  | GetState => Some (nd, [getState p nd])
  | PostMessage body => Some (message body nd)
  | GetStart => Some (start p nd)
  | GetStop => Some (stop nd)
  | TimerFired tid => timer_fired p tid nd
  | Delivered tid peer how => delivered p tid peer how nd
  end.

Fixpoint run (p : Params) (nd : Node) (evs : list Event)
    : option (Node * list Output) :=
  match evs with
  | [] => Some (nd, [])
  | ev :: evs' =>
      match step p nd ev with
      | None => None
      | Some (nd1, out1) =>
          match run p nd1 evs' with
          | None => None
          | Some (nd2, out2) => Some (nd2, out1 ++ out2)
          end
      end
  end.

(** The state a run ends in. *)
Definition exec (p : Params) (nd : Node) (evs : list Event) : option Node :=
  fst <$> run p nd evs.

(** The messages a run hands to a node that is alive at its start: the
    bodies posted before the first [/stop]. *)
Fixpoint posted_before_stop (evs : list Event) : list Json :=
  match evs with
  | [] => []
  | GetStop :: _ => []
  | PostMessage body :: evs' => body :: posted_before_stop evs'
  | _ :: evs' => posted_before_stop evs'
  end.

(** A run with the posted messages left out. *)
Definition is_message (ev : Event) : bool :=
  match ev with
  | PostMessage _ => true
  | _ => false
  end.

Definition without_messages (evs : list Event) : list Event :=
  filter (λ ev, is_message ev = false) evs.

(** A node with its buffer of received messages emptied. *)
Definition forget_messages (nd : Node) : Node := set_receivedMessages [] nd.

(** A handler invocation that has not returned. *)
Definition unfinished (t : Task) : bool :=
  match t with
  | Returned => false
  | _ => true
  end.

(** The number of rounds of the loop a node is in, and the state it
    leaves behind when the loop runs to its end undisturbed. *)
Definition rounds (p : Params) : Z :=
  if consensusPossible p then 2 else 11.

Definition finalState (p : Params) : NodeState :=
  {| killed := false;
     x := if consensusPossible p then Some V1 else Some (initialValue p);
     decided := Some (consensusPossible p);
     k := Some (rounds p) |}.

(** The events of one undisturbed round of invocation [tid], and the
    schedule that starts a node and lets [n] rounds go by. *)
Definition round_events (p : Params) (tid : nat) : list Event :=
  TimerFired tid :: ((λ i, Delivered tid i ResponseEnd) <$> peers p).

Definition undisturbed (p : Params) (n : nat) : list Event :=
  GetStart :: concat (replicate n (round_events p 0%nat)).

(** The invocation an event resumes, if it resumes one. *)
Definition task_of (ev : Event) : option nat :=
  match ev with
  | TimerFired tid | Delivered tid _ _ => Some tid
  | _ => None
  end.

(** The shape of the states a node goes through: at most one
    invocation of [/start] is suspended, and one is suspended only
    while [isRunning] or [killed] is set. *)
Definition one_loop (nd : Node) : Prop :=
  (∀ i j ti tj,
     tasks nd !! i = Some ti → tasks nd !! j = Some tj →
     unfinished ti = true → unfinished tj = true → i = j) ∧
  (∀ i t,
     tasks nd !! i = Some t → unfinished t = true →
     isRunning nd = true ∨ killed (currentState nd) = true).

(** A started node in round [n] of its first invocation, with nothing
    decided yet. *)
Definition in_round (p : Params) (n : Z) (ms : list Json) (t : Task) : Node :=
  mkNode (mkNodeState false (Some (initialValue p)) (Some false) (Some n))
    true ms [t].

(** An undisturbed node that has not been stopped: not started yet; or
    in round [n] of its loop, value and decision untouched; or done,
    in its final state. *)
Definition on_course (p : Params) (nd : Node) : Prop :=
  killed (currentState nd) = false →
  (isRunning nd = false ∧ tasks nd = [] ∧ currentState nd = initialState p) ∨
  (isRunning nd = true ∧
   ((∃ t n, unfinished t = true ∧ 0 ≤ n < rounds p ∧
            nd = in_round p n (receivedMessages nd) t) ∨
    (tasks nd = [Returned] ∧ currentState nd = finalState p))).

(** A stopped node whose loop was in some round when [k] was [n]:
    either invocation [tid] is still suspended in that round, or it and
    every other invocation have returned, [k] went up once and finality
    was forced. *)
Definition winding_down (p : Params) (tid : nat) (n : Z) (nd : Node) : Prop :=
  killed (currentState nd) = true ∧
  ((∃ t, tasks nd !! tid = Some t ∧ unfinished t = true ∧
         (∀ i ti, tasks nd !! i = Some ti → unfinished ti = true → i = tid) ∧
         to_number (k (currentState nd)) = n) ∨
   (tasks nd !! tid = Some Returned ∧
    (∀ i ti, tasks nd !! i = Some ti → ti = Returned) ∧
    k (currentState nd) = Some (n + 1) ∧
    decided (currentState nd) = Some (consensusPossible p) ∧
    (consensusPossible p = true → x (currentState nd) = Some V1))).

(** ** Startup, and what a run begins and emits *)

(** The port [app.listen] binds the node to. *)
Definition listen_port (p : Params) : Z := BASE_NODE_PORT p + nodeId p.

(** The rounds a run begins: its timer expiries. *)
Definition is_timer (ev : Event) : bool :=
  match ev with
  | TimerFired _ => true
  | _ => false
  end.

Definition rounds_begun (evs : list Event) : Z :=
  Z.of_nat (length (filter (λ ev, is_timer ev = true) evs)).

(** The requests of a run, and the two kinds of output. *)
Definition requests (evs : list Event) : list Event :=
  filter (λ ev, task_of ev = None) evs.

Definition is_post (o : Output) : bool :=
  match o with
  | HttpPost _ _ _ => true
  | Respond _ _ => false
  end.

Definition posts (out : list Output) : list Output :=
  filter (λ o, is_post o = true) out.

Definition responses (out : list Output) : list Output :=
  filter (λ o, is_post o = false) out.

Definition post_port (o : Output) : option Z :=
  match o with
  | HttpPost port _ _ => Some port
  | Respond _ _ => None
  end.

(** 1 while the first invocation waits on a broadcast, else 0. *)
Definition in_flight (nd : Node) : Z :=
  match tasks nd !! 0%nat with
  | Some (AwaitBroadcast _) => 1
  | _ => 0
  end.

(** The life of a node that has begun [c] rounds: only the first
    invocation of [/start] is ever suspended; [k] counts the rounds
    that have ended; a round can begin only below the bound of the
    loop. *)
Definition lifecycle (p : Params) (c : Z) (nd : Node) : Prop :=
  (∀ i t, tasks nd !! i = Some t → unfinished t = true → i = 0%nat) ∧
  (tasks nd ≠ [] → isRunning nd = true ∨ killed (currentState nd) = true) ∧
  0 ≤ to_number (k (currentState nd)) ∧
  to_number (k (currentState nd)) + in_flight nd = c ∧
  c ≤ rounds p ∧
  (tasks nd !! 0%nat = Some AwaitTimer → c < rounds p).

(** A faulty node at rest: nothing stored, nothing started. *)
Definition faulty_idle (nd : Node) : Prop :=
  tasks nd = [] ∧ isRunning nd = false ∧
  x (currentState nd) = None ∧
  decided (currentState nd) = None ∧
  k (currentState nd) = None.

(** The values [x] and [decided] of a non-faulty node can have. *)
Definition decision_shape (p : Params) (st : NodeState) : Prop :=
  (x st = Some (initialValue p) ∧ decided st = Some false) ∨
  (consensusPossible p = true ∧ x st = Some V1 ∧ decided st = Some true).

(** A stopped node with at most [m] rounds left to begin. *)
Definition last_round (m : Z) (nd : Node) : Prop :=
  killed (currentState nd) = true ∧
  (∀ i t, tasks nd !! i = Some t → unfinished t = true → i = 0%nat) ∧
  0 ≤ m ∧
  (tasks nd !! 0%nat = Some AwaitTimer → 1 ≤ m).

(** ** Runs *)

Section Runs.

Variable p : Params.

Lemma exec_nil nd : exec p nd [] = Some nd.
Proof. reflexivity. Qed.

Lemma exec_cons nd ev evs nd' :
  exec p nd (ev :: evs) = Some nd' ↔
  ∃ nd1 out, step p nd ev = Some (nd1, out) ∧ exec p nd1 evs = Some nd'.
Proof.
  unfold exec; simpl. split.
  - destruct (step p nd ev) as [[nd1 out]|]; [|discriminate].
    intros H. exists nd1, out. split; [done|].
    destruct (run p nd1 evs) as [[nd2 out2]|]; [|discriminate].
    simpl in *. congruence.
  - intros (nd1 & out & -> & H).
    destruct (run p nd1 evs) as [[nd2 out2]|]; [|discriminate].
    simpl in *. congruence.
Qed.

Lemma exec_step nd ev nd1 out evs :
  step p nd ev = Some (nd1, out) → exec p nd (ev :: evs) = exec p nd1 evs.
Proof.
  intros H. unfold exec; simpl. rewrite H.
  by destruct (run p nd1 evs) as [[]|].
Qed.

Lemma exec_app nd evs1 evs2 :
  exec p nd (evs1 ++ evs2) = exec p nd evs1 ≫= λ nd1, exec p nd1 evs2.
Proof.
  revert nd. induction evs1 as [|ev evs1 IH]; intros nd; [done|].
  simpl. destruct (step p nd ev) as [[nd1 out]|] eqn:E.
  - rewrite !(exec_step _ _ _ _ _ E). apply IH.
  - unfold exec; simpl. by rewrite E.
Qed.

(** A property every turn preserves holds at the end of every run. *)
Lemma exec_invariant (P : Node → Prop) :
  (∀ nd ev nd' out, P nd → step p nd ev = Some (nd', out) → P nd') →
  ∀ evs nd nd', P nd → exec p nd evs = Some nd' → P nd'.
Proof.
  intros Hstep. induction evs as [|ev evs IH]; intros nd nd' HP H.
  - rewrite exec_nil in H. congruence.
  - apply exec_cons in H as (nd1 & out & H1 & H2). eauto.
Qed.

End Runs.

(** ** What a turn leaves alone *)

Ltac unfold_turn :=
  unfold step, timer_fired, delivered, start, stop, message, await_all,
    after_broadcast, loop_head, incr_k in *.

Ltac turn_cases :=
  unfold_turn; repeat case_match; simplify_eq; simpl in *.

Lemma killed_force_finality p st :
  killed (force_finality p st) = killed st.
Proof. unfold force_finality. by case_match. Qed.

Lemma k_force_finality p st : k (force_finality p st) = k st.
Proof. unfold force_finality. by case_match. Qed.

Lemma step_killed p nd ev nd' out :
  step p nd ev = Some (nd', out) →
  killed (currentState nd) = true → killed (currentState nd') = true.
Proof.
  intros H Hk. turn_cases; rewrite ?killed_force_finality; done.
Qed.

Lemma exec_killed p evs nd nd' :
  exec p nd evs = Some nd' →
  killed (currentState nd) = true → killed (currentState nd') = true.
Proof.
  intros H Hk.
  eapply (exec_invariant p (λ n, killed (currentState n) = true)); eauto.
  intros. by eapply step_killed.
Qed.

Lemma step_receivedMessages p nd ev nd' out :
  step p nd ev = Some (nd', out) → is_message ev = false →
  receivedMessages nd' = receivedMessages nd.
Proof. intros H Hev. by turn_cases. Qed.

Lemma step_killed_unchanged p nd ev nd' out :
  step p nd ev = Some (nd', out) → ev ≠ GetStop →
  killed (currentState nd') = killed (currentState nd).
Proof.
  intros H Hev. turn_cases; rewrite ?killed_force_finality; done.
Qed.

(** ** The control surface *)

(** C8: whatever the node and whatever the operations (requests, timer
    expiries, deliveries), [killed] starts out false and, once true, is
    true after every further run: it only ever goes from false to
    true. *)
Theorem killed_only_false_to_true p :
  killed (currentState (init p)) = false ∧
  ∀ nd evs nd',
    exec p nd evs = Some nd' →
    killed (currentState nd) = true → killed (currentState nd') = true.
Proof.
  split; [done|]. intros nd evs nd' H Hk. by eapply exec_killed.
Qed.

Lemma killed_only_false_to_true_witness :
  let p := mkParams 0 4 1 V0 false 3000 in
  let nd := mkNode (mkNodeState true (Some V0) (Some false) (Some 0))
              false [] [AwaitTimer] in
  ∃ nd', exec p nd [GetStart; TimerFired 0%nat; PostMessage JNull; GetStop]
           = Some nd' ∧
         killed (currentState nd') = true.
Proof.
  intros p nd. eexists. split; [vm_compute; reflexivity|].
  apply (proj2 (killed_only_false_to_true p) nd
           [GetStart; TimerFired 0%nat; PostMessage JNull; GetStop]);
    vm_compute; reflexivity.
Defined.

(** C7: a killed node answers a posted message with 503 and its buffer
    stays as it is; a node that is not killed answers 200 and puts the
    message at the end of the buffer.  Over a whole run the buffer
    grows by exactly the bodies posted while the node was alive, in the
    order they came. *)
Theorem message_ingestion p :
  (∀ nd body,
     killed (currentState nd) = true →
     step p nd (PostMessage body)
     = Some (nd, [Respond 503 (Text "Node is stopped")])) ∧
  (∀ nd body,
     killed (currentState nd) = false →
     step p nd (PostMessage body)
     = Some (set_receivedMessages (receivedMessages nd ++ [body]) nd,
             [Respond 200 (Text "Message received")])) ∧
  (∀ evs nd nd',
     exec p nd evs = Some nd' →
     receivedMessages nd'
     = receivedMessages nd ++
       (if killed (currentState nd) then [] else posted_before_stop evs)).
Proof.
  split_and!.
  - intros nd body H. simpl. unfold message. by rewrite H.
  - intros nd body H. simpl. unfold message. by rewrite H.
  - induction evs as [|ev evs IH]; intros nd nd' H.
    + rewrite exec_nil in H. simplify_eq.
      case_match; by rewrite app_nil_r.
    + apply exec_cons in H as (nd1 & out & H1 & H2).
      specialize (IH _ _ H2). rewrite IH. clear IH H2.
      destruct (killed (currentState nd)) eqn:Hk.
      * rewrite (step_killed _ _ _ _ _ H1 Hk). rewrite !app_nil_r.
        destruct ev; try (by eapply step_receivedMessages).
        simpl in H1. unfold message in H1. rewrite Hk in H1. by simplify_eq.
      * destruct ev;
          try (rewrite (step_killed_unchanged _ _ _ _ _ H1), Hk by done;
               by rewrite (step_receivedMessages _ _ _ _ _ H1)).
        -- simpl in H1. unfold message in H1. rewrite Hk in H1.
           simplify_eq. simpl. rewrite Hk. by rewrite <- app_assoc.
        -- simpl in H1. unfold stop in H1. rewrite Hk in H1.
           simplify_eq. by simpl.
Qed.

Lemma message_ingestion_witness :
  let p := mkParams 0 4 1 V0 false 3000 in
  ∃ nd', exec p (init p)
           [PostMessage (JNum 1); GetStart; PostMessage (JNum 2); GetStop;
            PostMessage (JNum 3)] = Some nd' ∧
         receivedMessages nd' = [JNum 1; JNum 2].
Proof.
  intros p. eexists. split; [vm_compute; reflexivity|].
  apply (proj2 (proj2 (message_ingestion p))
           [PostMessage (JNum 1); GetStart; PostMessage (JNum 2); GetStop;
            PostMessage (JNum 3)] (init p)).
  vm_compute; reflexivity.
Defined.

(** C6: [/stop] on a node that is not killed answers 200 and sets
    [killed]; on a killed node it answers 400 and changes nothing.  So
    after one [/stop], whatever happens in between, the next [/stop]
    fails. *)
Theorem stop_twice p :
  (∀ nd,
     killed (currentState nd) = false →
     ∃ nd', step p nd GetStop
            = Some (nd', [Respond 200 (Text "Consensus algorithm stopped")]) ∧
            killed (currentState nd') = true ∧
            isRunning nd' = false ∧
            x (currentState nd') = x (currentState nd) ∧
            decided (currentState nd') = decided (currentState nd) ∧
            k (currentState nd') = k (currentState nd) ∧
            receivedMessages nd' = receivedMessages nd ∧
            tasks nd' = tasks nd) ∧
  (∀ nd,
     killed (currentState nd) = true →
     step p nd GetStop
     = Some (nd, [Respond 400 (Text "Node already stopped")])) ∧
  (∀ nd evs nd',
     exec p nd (GetStop :: evs) = Some nd' →
     step p nd' GetStop
     = Some (nd', [Respond 400 (Text "Node already stopped")])).
Proof.
  assert (Hkilled : ∀ nd, killed (currentState nd) = true →
            step p nd GetStop
            = Some (nd, [Respond 400 (Text "Node already stopped")])).
  { intros nd H. simpl. unfold stop. by rewrite H. }
  split_and!; [|done|].
  - intros nd H. eexists. simpl. unfold stop. rewrite H. by split_and!.
  - intros nd evs nd' H. apply Hkilled.
    apply exec_cons in H as (nd1 & out & H1 & H2).
    eapply exec_killed; [done|].
    simpl in H1. unfold stop in H1. by case_match; simplify_eq.
Qed.

Lemma stop_twice_witness :
  let p := mkParams 0 4 1 V0 false 3000 in
  let nd2 := mkNode (mkNodeState true (Some V1) (Some true) (Some 0))
               true [] [Returned] in
  (∃ nd1,
     step p (init p) GetStop
     = Some (nd1, [Respond 200 (Text "Consensus algorithm stopped")]) ∧
     killed (currentState nd1) = true) ∧
  step p nd2 GetStop
  = Some (nd2, [Respond 400 (Text "Node already stopped")]).
Proof.
  intros p nd2. split.
  - destruct (proj1 (stop_twice p) (init p) eq_refl) as (nd1 & H1 & H2 & _).
    exists nd1. split; [exact H1|exact H2].
  - apply (proj2 (proj2 (stop_twice p)) (init p)
             [GetStart; PostMessage JNull] nd2).
    vm_compute; reflexivity.
Defined.

(** C4: a node built with [isFaulty = true], in whatever state it is:
    [/status] answers 500 "faulty"; [/getState] answers with [x],
    [decided] and [k] null and with the stored [killed]; [/start]
    answers 400 and leaves the node as it was. *)
Theorem faulty_node p nd :
  isFaulty p = true →
  step p nd GetStatus = Some (nd, [Respond 500 (Text "faulty")]) ∧
  step p nd GetState
  = Some (nd, [Respond 200
                 (StateJson {| killed := killed (currentState nd);
                               x := None; decided := None; k := None |})]) ∧
  step p nd GetStart = Some (nd, [Respond 400 (Text "Cannot start")]).
Proof.
  intros H. simpl. unfold status, getState, start. by rewrite H.
Qed.

Lemma faulty_node_witness :
  let p := mkParams 2 4 1 V1 true 3000 in
  let nd := mkNode (mkNodeState true (Some V1) (Some true) (Some 7))
              false [JNull] [] in
  step p nd GetStatus = Some (nd, [Respond 500 (Text "faulty")]) ∧
  step p nd GetState
  = Some (nd, [Respond 200 (StateJson (mkNodeState true None None None))]) ∧
  step p nd GetStart = Some (nd, [Respond 400 (Text "Cannot start")]).
Proof.
  intros p nd. apply (faulty_node p nd). reflexivity.
Defined.



(** ** Resuming a suspended invocation *)

Lemma after_broadcast_eq p tid nd :
  after_broadcast p tid nd
  = if loop_test p (incr_k nd)
    then set_tasks (<[tid := AwaitTimer]> (tasks nd)) (incr_k nd)
    else set_tasks (<[tid := Returned]> (tasks nd))
           (set_currentState
              (force_finality p (currentState (incr_k nd))) (incr_k nd)).
Proof.
  unfold after_broadcast, loop_head.
  by destruct (loop_test p (incr_k nd)).
Qed.

Lemma await_all_frame p tid pending nd :
  ∃ t, tasks (await_all p tid pending nd) = <[tid := t]> (tasks nd) ∧
       isRunning (await_all p tid pending nd) = isRunning nd ∧
       killed (currentState (await_all p tid pending nd))
       = killed (currentState nd) ∧
       receivedMessages (await_all p tid pending nd) = receivedMessages nd.
Proof.
  destruct pending as [|i pending]; simpl.
  - rewrite after_broadcast_eq. case_match; eexists; simpl;
      rewrite ?killed_force_finality; by split_and!.
  - by eexists.
Qed.

(** A timer expiry or a delivery resumes an invocation that was
    suspended, and touches that entry of [tasks] only. *)
Lemma step_resume p nd ev nd' out tid :
  step p nd ev = Some (nd', out) → task_of ev = Some tid →
  ∃ t0 t, tasks nd !! tid = Some t0 ∧ unfinished t0 = true ∧
          tasks nd' = <[tid := t]> (tasks nd) ∧
          isRunning nd' = isRunning nd ∧
          killed (currentState nd') = killed (currentState nd).
Proof.
  intros H Hev. destruct ev; simplify_eq; simpl in *.
  - unfold timer_fired in H. repeat case_match; simplify_eq.
    destruct (await_all_frame p tid (peers p) nd) as (t & ? & ? & ? & ?).
    by exists AwaitTimer, t.
  - unfold delivered in H. repeat case_match; simplify_eq.
    destruct (await_all_frame p tid (filter (λ i, i ≠ peer) pending) nd)
      as (t & ? & ? & ? & ?).
    by exists (AwaitBroadcast pending), t.
Qed.

(** A request leaves the suspended invocations alone and does not
    touch [k]. *)
Lemma step_request p nd ev nd' out :
  step p nd ev = Some (nd', out) → task_of ev = None →
  k (currentState nd') = k (currentState nd) ∧
  (tasks nd' = tasks nd ∨
   ev = GetStart ∧ isRunning nd = false ∧ isRunning nd' = true ∧
   ∃ t, tasks nd' = tasks nd ++ [t] ∧
        (unfinished t = true → killed (currentState nd) = false)).
Proof.
  intros H Hev. destruct ev; simplify_eq; simpl in *; simplify_eq;
    try (by split; [|left]).
  - unfold message in H. by case_match; simplify_eq; (split; [|left]).
  - unfold start in H. destruct (isFaulty p || isRunning nd) eqn:E.
    + simplify_eq. by split; [|left].
    + apply orb_false_iff in E as [Hf Hr]. rewrite Hf in H. simpl in H.
      destruct (killed (currentState nd)) eqn:Hk.
      * unfold loop_head, loop_test in H. simpl in H. rewrite Hk in H.
        simpl in H. simplify_eq. simpl. rewrite k_force_finality. split; [done|].
        right. do 3 (split; [done|]). by exists Returned.
      * destruct (loop_head p (set_isRunning true nd)) as [n t] eqn:E.
        unfold loop_head in E. simplify_eq.
        case_match; simplify_eq; simpl; rewrite ?k_force_finality;
          (split; [done|]); right; do 3 (split; [done|]); by eexists.
  - unfold stop in H. by case_match; simplify_eq; (split; [|left]).
Qed.

Lemma step_one_loop p nd ev nd' out :
  one_loop nd → step p nd ev = Some (nd', out) → one_loop nd'.
Proof.
  intros [Huniq Hflag] H. destruct (task_of ev) as [tid|] eqn:Hev.
  - destruct (step_resume _ _ _ _ _ _ H Hev)
      as (t0 & t & Ht0 & Hu0 & Ht & Hr & Hk).
    assert (Hat : ∀ i ti, tasks nd' !! i = Some ti →
              unfinished ti = true → i = tid).
    { intros i ti Hi Hu. destruct (decide (i = tid)) as [|Hne]; [done|].
      rewrite Ht, list_lookup_insert_ne in Hi by done. eauto. }
    split.
    + intros i j ti tj Hi Hj Hui Huj.
      rewrite (Hat _ _ Hi Hui), (Hat _ _ Hj Huj). done.
    + intros i ti Hi Hu. rewrite Hr, Hk. eauto.
  - destruct (step_request _ _ _ _ _ H Hev)
      as [_ [Ht | (-> & Hr & Hr' & t & Ht & Hu)]].
    + split.
      * rewrite Ht. eauto.
      * intros i ti Hi Hu. rewrite Ht in Hi.
        destruct (Hflag _ _ Hi Hu) as [Hrun|Hk];
          [|right; by eapply step_killed].
        destruct ev; simpl in *; simplify_eq; eauto.
        -- unfold message in H. case_match; simplify_eq; eauto.
        -- unfold start in H. rewrite Hrun, orb_true_r in H.
           simplify_eq. eauto.
        -- unfold stop in H. case_match; simplify_eq; simpl; eauto.
    + split; [|by eauto].
      assert (Hold : ∀ i ti, tasks nd !! i = Some ti →
                unfinished ti = true → unfinished t = true → False).
      { intros i ti Hi Hui Hut. specialize (Hu Hut).
        destruct (Hflag _ _ Hi Hui); congruence. }
      intros i j ti tj Hi Hj Hui Huj. rewrite Ht in Hi, Hj.
      apply lookup_app_Some in Hi as [Hi | [Hil Hi]];
        apply lookup_app_Some in Hj as [Hj | [Hjl Hj]].
      * eauto.
      * apply list_lookup_singleton_Some in Hj as [_ ->].
        destruct (Hold _ _ Hi Hui Huj).
      * apply list_lookup_singleton_Some in Hi as [_ ->].
        destruct (Hold _ _ Hj Huj Hui).
      * apply list_lookup_singleton_Some in Hi as [Hi _].
        apply list_lookup_singleton_Some in Hj as [Hj _]. lia.
Qed.

Lemma one_loop_init p : one_loop (init p).
Proof. split; intros i *; simpl; by rewrite lookup_nil. Qed.

Lemma exec_one_loop p evs nd nd' :
  one_loop nd → exec p nd evs = Some nd' → one_loop nd'.
Proof.
  apply (exec_invariant p one_loop). intros. by eapply step_one_loop.
Qed.

(** ** The peers of a broadcast *)

Lemma elem_of_peers p i : i ∈ peers p ↔ 0 ≤ i < N p ∧ i ≠ nodeId p.
Proof.
  unfold peers. rewrite list_elem_of_filter, elem_of_seqZ. lia.
Qed.

Lemma NoDup_peers p : NoDup (peers p).
Proof. apply NoDup_filter, NoDup_seqZ. Qed.

Lemma filter_ne_id (a : Z) (l : list Z) :
  a ∉ l → filter (λ i, i ≠ a) l = l.
Proof.
  induction l as [|b l IH]; intros Ha; [done|].
  apply not_elem_of_cons in Ha as [Hab Hal].
  rewrite filter_cons_True by congruence. by rewrite IH.
Qed.




(** ** Rounds of an undisturbed node *)

Lemma rounds_pos p : 0 < rounds p.
Proof. unfold rounds. case_match; lia. Qed.

Lemma after_broadcast_in_round p n ms t :
  0 ≤ n < rounds p →
  after_broadcast p 0 (in_round p n ms t)
  = if decide (n + 1 < rounds p)
    then in_round p (n + 1) ms AwaitTimer
    else mkNode (finalState p) true ms [Returned].
Proof.
  intros Hn. rewrite after_broadcast_eq.
  unfold loop_test, incr_k, in_round, finalState, force_finality, rounds in *.
  simpl. destruct (consensusPossible p); case_decide; simpl.
  - by rewrite (proj2 (Z.ltb_lt _ _)) by done.
  - rewrite (proj2 (Z.ltb_ge _ _)) by lia. simpl.
    unfold set_currentState, set_tasks, set_decided, set_x; simpl.
    do 3 f_equal. lia.
  - by rewrite (proj2 (Z.leb_le _ _)) by lia.
  - rewrite (proj2 (Z.leb_gt _ _)) by lia. simpl.
    unfold set_currentState, set_tasks, set_decided; simpl.
    do 3 f_equal. lia.
Qed.

Lemma after_broadcast_set_tasks p tid t nd :
  after_broadcast p tid (set_tasks (<[tid := t]> (tasks nd)) nd)
  = after_broadcast p tid nd.
Proof.
  rewrite !after_broadcast_eq. unfold loop_test, incr_k, set_tasks,
    set_currentState; simpl.
  by rewrite !list_insert_insert_eq.
Qed.

Lemma step_on_course p nd ev nd' out :
  isFaulty p = false →
  on_course p nd → step p nd ev = Some (nd', out) → on_course p nd'.
Proof.
  intros Hf Hinv H Hk'.
  assert (killed (currentState nd) = false) as Hk.
  { destruct (killed (currentState nd)) eqn:E; [|done].
    by rewrite (step_killed _ _ _ _ _ H E) in Hk'. }
  pose proof (rounds_pos p) as Hpos.
  destruct (Hinv Hk)
    as [(Hr & Ht & Hs) | (Hr & [(t & n & Hu & Hn & Hnd) | (Ht & Hs)])].
  - (* not started *)
    destruct ev; unfold step in H; simplify_eq.
    + left. by split_and!.
    + left. by split_and!.
    + unfold message in H. rewrite Hk in H. simplify_eq. left. by split_and!.
    + destruct nd as [st r ms ts]. simpl in *. subst.
      unfold start, loop_head, loop_test, initialState in H. simpl in H.
      rewrite Hf in H. simpl in H.
      assert ((if consensusPossible p then 0 <? 2 else 0 <=? 10) = true)
        as Hlt by (by destruct (consensusPossible p)).
      rewrite Hlt in H. simplify_eq.
      right. split; [done|]. left. exists AwaitTimer, 0.
      split_and!; [done|lia|lia|done].
    + unfold stop in H. rewrite Hk in H. by simplify_eq.
    + unfold timer_fired in H. by rewrite Ht in H.
    + unfold delivered in H. by rewrite Ht in H.
  - (* in a round *)
    destruct nd as [st r ms ts]. unfold in_round in Hnd. simpl in Hnd.
    simplify_eq. clear Hinv Hk Hr. fold (in_round p n ms t) in *.
    assert (Hafter : on_course p (after_broadcast p 0 (in_round p n ms t))).
    { intros _. rewrite after_broadcast_in_round by done.
      right. split; [by case_decide|]. case_decide.
      - left. exists AwaitTimer, (n + 1). split_and!; [done|lia|lia|done].
      - by right. }
    assert (Hstay : ∀ ms' t', unfinished t' = true →
              on_course p (in_round p n ms' t')).
    { intros ms' t' Hu' _. right. split; [done|]. left. by exists t', n. }
    destruct ev; unfold step in H; simplify_eq.
    + by apply Hstay.
    + by apply Hstay.
    + unfold message in H. simpl in H. simplify_eq. by apply Hstay.
    + unfold start in H. simpl in H. rewrite orb_true_r in H. simplify_eq.
      by apply Hstay.
    + unfold stop in H. simpl in H. by simplify_eq.
    + unfold timer_fired in H.
      destruct tid as [|tid]; simpl in H; [|done].
      destruct t; simplify_eq.
      destruct (peers p) as [|i rest]; simpl; [by apply Hafter|].
      by apply Hstay.
    + unfold delivered in H.
      destruct tid as [|tid]; simpl in H; [|done].
      destruct t; simplify_eq. case_decide; simplify_eq.
      destruct (filter _ pending) as [|i rest]; simpl; [by apply Hafter|].
      by apply Hstay.
  - (* done *)
    destruct ev; unfold step in H; simplify_eq.
    + right. split; [done|]. by right.
    + right. split; [done|]. by right.
    + unfold message in H. rewrite Hk in H. simplify_eq.
      right. split; [done|]. by right.
    + unfold start in H. rewrite Hr, orb_true_r in H. simplify_eq.
      right. split; [done|]. by right.
    + unfold stop in H. rewrite Hk in H. by simplify_eq.
    + unfold timer_fired in H. rewrite Ht in H.
      destruct tid as [|tid]; simpl in H; done.
    + unfold delivered in H. rewrite Ht in H.
      destruct tid as [|tid]; simpl in H; done.
Qed.

Lemma on_course_init p : on_course p (init p).
Proof. intros _. left. by split_and!. Qed.

Lemma exec_on_course p evs nd :
  isFaulty p = false → exec p (init p) evs = Some nd → on_course p nd.
Proof.
  intros Hf. apply (exec_invariant p (on_course p)); [|apply on_course_init].
  intros. by eapply step_on_course.
Qed.

(** An undisturbed node that has returned from its loop is in its
    final state. *)
Lemma exec_returned p evs nd :
  isFaulty p = false → exec p (init p) evs = Some nd →
  killed (currentState nd) = false → Returned ∈ tasks nd →
  currentState nd = finalState p.
Proof.
  intros Hf H Hk Hret.
  destruct (exec_on_course _ _ _ Hf H Hk)
    as [(_ & Ht & _) | (_ & [(t & n & Hu & _ & Hnd) | (_ & Hs)])]; [..|done].
  - rewrite Ht in Hret. by apply elem_of_nil in Hret.
  - rewrite Hnd in Hret. simpl in Hret.
    apply list_elem_of_singleton in Hret as <-. done.
Qed.

(** The deliveries of a broadcast, settled one after the other, take
    the invocation to the end of its round. *)
Lemma exec_deliveries p tid how : ∀ pending nd,
  NoDup pending → pending ≠ [] →
  tasks nd !! tid = Some (AwaitBroadcast pending) →
  exec p nd ((λ i, Delivered tid i how) <$> pending)
  = Some (after_broadcast p tid nd).
Proof.
  induction pending as [|i rest IH]; intros nd Hnd Hne Ht; [done|].
  apply NoDup_cons in Hnd as [Hi Hrest]. rewrite fmap_cons.
  assert (step p nd (Delivered tid i how)
          = Some (await_all p tid rest nd, [])) as Hstep.
  { unfold step, delivered. rewrite Ht.
    rewrite decide_True by apply list_elem_of_here.
    rewrite filter_cons_False by (intros ?; done).
    by rewrite filter_ne_id. }
  rewrite (exec_step _ _ _ _ _ _ Hstep).
  destruct rest as [|j rest]; [done|].
  unfold await_all. rewrite IH; [|done|done|].
  - by rewrite after_broadcast_set_tasks.
  - simpl. apply list_lookup_insert_eq. by eapply lookup_lt_Some.
Qed.

Lemma exec_round p tid nd :
  tasks nd !! tid = Some AwaitTimer →
  exec p nd (round_events p tid) = Some (after_broadcast p tid nd).
Proof.
  intros Ht. unfold round_events.
  assert (step p nd (TimerFired tid)
          = Some (await_all p tid (peers p) nd,
                  broadcastVote p (x (currentState nd)) (k (currentState nd))))
    as Hstep by (unfold step, timer_fired; by rewrite Ht).
  rewrite (exec_step _ _ _ _ _ _ Hstep).
  destruct (peers p) as [|j rest] eqn:E; [done|].
  unfold await_all. rewrite exec_deliveries.
  - by rewrite after_broadcast_set_tasks.
  - rewrite <- E. apply NoDup_peers.
  - done.
  - simpl. apply list_lookup_insert_eq. by eapply lookup_lt_Some.
Qed.

Lemma exec_rounds p ms : ∀ m n,
  0 ≤ n → n + Z.of_nat (S m) = rounds p →
  exec p (in_round p n ms AwaitTimer)
    (concat (replicate (S m) (round_events p 0%nat)))
  = Some (mkNode (finalState p) true ms [Returned]).
Proof.
  induction m as [|m IH]; intros n Hn Hsum.
  - cbn [replicate concat]. rewrite app_nil_r, exec_round by done.
    rewrite after_broadcast_in_round by lia.
    by rewrite decide_False by lia.
  - change (replicate (S (S m)) (round_events p 0%nat))
      with (round_events p 0%nat :: replicate (S m) (round_events p 0%nat)).
    rewrite concat_cons, exec_app, exec_round by done.
    rewrite after_broadcast_in_round by lia.
    rewrite decide_True by lia. apply IH; lia.
Qed.

(** Started and left alone for its rounds, a node reaches its final
    state. *)
Lemma exec_undisturbed p :
  isFaulty p = false →
  exec p (init p) (undisturbed p (Z.to_nat (rounds p)))
  = Some (mkNode (finalState p) true [] [Returned]).
Proof.
  intros Hf. unfold undisturbed.
  assert (step p (init p) GetStart
          = Some (in_round p 0 [] AwaitTimer,
                  [Respond 200 (Text "Consensus algorithm started")]))
    as Hstep.
  { unfold step, start, loop_head, loop_test, init, initialState. simpl.
    rewrite Hf. simpl.
    by destruct (consensusPossible p). }
  rewrite (exec_step _ _ _ _ _ _ Hstep).
  pose proof (rounds_pos p).
  destruct (Z.to_nat (rounds p)) as [|m] eqn:E; [lia|].
  apply exec_rounds; lia.
Qed.

(** ** The two outcomes of an undisturbed run *)

(** C2: a non-faulty node with [2 * F < N], started and not stopped.
    Left alone for two rounds, its loop runs to completion; and in
    every run in which the loop has completed, [decided] is true, [x]
    is 1 and [k] is 2. *)
Theorem quick_consensus p :
  isFaulty p = false → 2 * F p < N p →
  (∃ nd, exec p (init p) (undisturbed p 2) = Some nd ∧
         killed (currentState nd) = false ∧ tasks nd = [Returned]) ∧
  (∀ evs nd,
     exec p (init p) evs = Some nd →
     killed (currentState nd) = false → Returned ∈ tasks nd →
     decided (currentState nd) = Some true ∧
     x (currentState nd) = Some V1 ∧
     k (currentState nd) = Some 2).
Proof.
  intros Hf Hq.
  assert (consensusPossible p = true) as Hc
    by (unfold consensusPossible; by apply Z.ltb_lt).
  assert (rounds p = 2) as Hr by (unfold rounds; by rewrite Hc).
  split.
  - pose proof (exec_undisturbed p Hf) as H. rewrite Hr in H.
    eexists. split; [exact H|]. done.
  - intros evs nd H Hk Hret.
    rewrite (exec_returned _ _ _ Hf H Hk Hret).
    unfold finalState. rewrite Hc, Hr. done.
Qed.

Lemma quick_consensus_witness :
  let p := mkParams 0 4 1 V0 false 3000 in
  let nd := mkNode (mkNodeState false (Some V1) (Some true) (Some 2))
              true [JNum 7] [Returned] in
  exec p (init p)
    [GetStart; TimerFired 0; Delivered 0 3 RequestError; GetStart;
     Delivered 0 1 ResponseEnd; PostMessage (JNum 7);
     Delivered 0 2 ResponseEnd; TimerFired 0; Delivered 0 2 RequestError;
     Delivered 0 1 RequestError; GetState; Delivered 0 3 ResponseEnd]
  = Some nd ∧
  decided (currentState nd) = Some true ∧
  x (currentState nd) = Some V1 ∧
  k (currentState nd) = Some 2.
Proof.
  intros p nd. split; [vm_compute; reflexivity|].
  apply (proj2 (quick_consensus p eq_refl eq_refl)
           [GetStart; TimerFired 0; Delivered 0 3 RequestError; GetStart;
            Delivered 0 1 ResponseEnd; PostMessage (JNum 7);
            Delivered 0 2 ResponseEnd; TimerFired 0;
            Delivered 0 2 RequestError; Delivered 0 1 RequestError; GetState;
            Delivered 0 3 ResponseEnd] nd).
  - vm_compute; reflexivity.
  - reflexivity.
  - apply list_elem_of_here.
Defined.

(** C3: a non-faulty node with [2 * F >= N], started and not stopped.
    Left alone for eleven rounds, its loop runs to completion; and in
    every run in which the loop has completed, [decided] is false, [k]
    is 11 and [x] is still the initial value. *)
Theorem fault_exceeded p :
  isFaulty p = false → 2 * F p >= N p →
  (∃ nd, exec p (init p) (undisturbed p 11) = Some nd ∧
         killed (currentState nd) = false ∧ tasks nd = [Returned]) ∧
  (∀ evs nd,
     exec p (init p) evs = Some nd →
     killed (currentState nd) = false → Returned ∈ tasks nd →
     decided (currentState nd) = Some false ∧
     k (currentState nd) = Some 11 ∧
     x (currentState nd) = Some (initialValue p)).
Proof.
  intros Hf Hq.
  assert (consensusPossible p = false) as Hc
    by (unfold consensusPossible; apply Z.ltb_ge; lia).
  assert (rounds p = 11) as Hr by (unfold rounds; by rewrite Hc).
  split.
  - pose proof (exec_undisturbed p Hf) as H. rewrite Hr in H.
    eexists. split; [exact H|]. done.
  - intros evs nd H Hk Hret.
    rewrite (exec_returned _ _ _ Hf H Hk Hret).
    unfold finalState. rewrite Hc, Hr. done.
Qed.

Lemma fault_exceeded_witness :
  let p := mkParams 0 3 2 V1 false 3000 in
  let nd := mkNode (mkNodeState false (Some V1) (Some false) (Some 11))
              true [] [Returned] in
  exec p (init p) (undisturbed p 11) = Some nd ∧
  decided (currentState nd) = Some false ∧
  k (currentState nd) = Some 11 ∧
  x (currentState nd) = Some V1.
Proof.
  intros p nd. split; [vm_compute; reflexivity|].
  apply (proj2 (fault_exceeded p eq_refl ltac:(simpl; lia))
           (undisturbed p 11) nd).
  - vm_compute; reflexivity.
  - reflexivity.
  - apply list_elem_of_here.
Defined.

(** ** The buffer of received messages is never read *)

Lemma after_broadcast_forget_messages p tid nd :
  after_broadcast p tid (forget_messages nd)
  = forget_messages (after_broadcast p tid nd).
Proof.
  rewrite !after_broadcast_eq.
  change (loop_test p (incr_k (forget_messages nd)))
    with (loop_test p (incr_k nd)).
  by destruct (loop_test p (incr_k nd)).
Qed.

Lemma await_all_forget_messages p tid pending nd :
  await_all p tid pending (forget_messages nd)
  = forget_messages (await_all p tid pending nd).
Proof.
  destruct pending; [apply after_broadcast_forget_messages|done].
Qed.

Lemma step_forget_messages p nd ev :
  is_message ev = false →
  step p (forget_messages nd) ev
  = (λ r, (forget_messages r.1, r.2)) <$> step p nd ev.
Proof.
  intros Hev. destruct ev; simplify_eq; unfold step; try done.
  - unfold start.
    change (isRunning (forget_messages nd)) with (isRunning nd).
    destruct (isFaulty p || isRunning nd); [done|].
    destruct (isFaulty p); simpl; [done|]. unfold loop_head.
    change (loop_test p (set_isRunning true (forget_messages nd)))
      with (loop_test p (set_isRunning true nd)).
    by destruct (loop_test p (set_isRunning true nd)).
  - unfold stop.
    change (currentState (forget_messages nd)) with (currentState nd).
    by destruct (killed (currentState nd)).
  - unfold timer_fired. change (tasks (forget_messages nd)) with (tasks nd).
    destruct (tasks nd !! tid) as [[]|]; try done.
    by rewrite await_all_forget_messages.
  - unfold delivered. change (tasks (forget_messages nd)) with (tasks nd).
    destruct (tasks nd !! tid) as [[]|]; try done.
    case_decide; [|done]. by rewrite await_all_forget_messages.
Qed.

Lemma step_post_forget p nd body nd' out :
  step p nd (PostMessage body) = Some (nd', out) →
  forget_messages nd' = forget_messages nd.
Proof.
  unfold step, message. intros H. by case_match; simplify_eq.
Qed.

Lemma exec_forget_messages p : ∀ evs nd,
  exec p (forget_messages nd) (without_messages evs)
  = forget_messages <$> exec p nd evs.
Proof.
  induction evs as [|ev evs IH]; intros nd; [done|].
  unfold without_messages in *.
  destruct (is_message ev) eqn:Hev.
  - rewrite filter_cons_False by (by rewrite Hev).
    destruct ev; simplify_eq.
    destruct (step p nd (PostMessage body)) as [[nd1 out]|] eqn:E; [|done].
    rewrite (exec_step _ _ _ _ _ _ E), <- IH.
    by rewrite (step_post_forget _ _ _ _ _ E).
  - rewrite filter_cons_True by done.
    pose proof (step_forget_messages p nd ev Hev) as Hs.
    destruct (step p nd ev) as [[nd1 out]|] eqn:E; simpl in Hs.
    + rewrite (exec_step _ _ _ _ _ _ E), (exec_step _ _ _ _ _ _ Hs). apply IH.
    + unfold exec; simpl. by rewrite E, Hs.
Qed.

(** C10: two runs of a node from the same state that differ only in
    the messages posted to it both go through or both get stuck, and
    end with the same [x], [decided] and [k] (the same [currentState],
    the same [isRunning], the same suspended invocations). *)
Theorem decision_ignores_messages p nd evs1 evs2 :
  without_messages evs1 = without_messages evs2 →
  forget_messages <$> exec p nd evs1 = forget_messages <$> exec p nd evs2 ∧
  currentState <$> exec p nd evs1 = currentState <$> exec p nd evs2.
Proof.
  intros H.
  assert (forget_messages <$> exec p nd evs1
          = forget_messages <$> exec p nd evs2) as Heq
    by (by rewrite <- !exec_forget_messages, H).
  split; [done|].
  destruct (exec p nd evs1) as [n1|], (exec p nd evs2) as [n2|];
    try done.
  simpl in *. f_equal.
  change (currentState (forget_messages n1)
          = currentState (forget_messages n2)).
  congruence.
Qed.

Lemma decision_ignores_messages_witness :
  let p := mkParams 0 2 0 V0 false 3000 in
  currentState <$>
    exec p (init p)
      [PostMessage (vote (Some V0) (Some 5)); GetStart; TimerFired 0;
       PostMessage (vote (Some V0) (Some 0)); Delivered 0 1 ResponseEnd]
  = currentState <$>
    exec p (init p)
      [GetStart; PostMessage (JStr "x"); TimerFired 0;
       Delivered 0 1 ResponseEnd; PostMessage JNull].
Proof.
  intros p.
  apply (decision_ignores_messages p (init p)
           [PostMessage (vote (Some V0) (Some 5)); GetStart; TimerFired 0;
            PostMessage (vote (Some V0) (Some 0)); Delivered 0 1 ResponseEnd]
           [GetStart; PostMessage (JStr "x"); TimerFired 0;
            Delivered 0 1 ResponseEnd; PostMessage JNull]).
  reflexivity.
Defined.

(** ** Stopping a node whose loop is running *)

Lemma unfinished_false t : unfinished t = false → t = Returned.
Proof. by destruct t. Qed.

(** What a request can do to [currentState]. *)
Lemma step_request_state p nd ev nd' out :
  step p nd ev = Some (nd', out) → task_of ev = None →
  currentState nd' = currentState nd ∨
  currentState nd' = force_finality p (currentState nd) ∨
  currentState nd' = set_killed true (currentState nd).
Proof.
  intros H Hev. destruct ev; simplify_eq; unfold step in H; simplify_eq;
    try (by left).
  - unfold message in H. case_match; simplify_eq; by left.
  - unfold start in H. destruct (isFaulty p || isRunning nd);
      [simplify_eq; by left|].
    destruct (negb (isFaulty p)); [|simplify_eq; by left].
    unfold loop_head in H.
    destruct (loop_test p (set_isRunning true nd)); simplify_eq;
      [by left|right; by left].
  - unfold stop in H. case_match; simplify_eq; [by left|right; by right].
Qed.

(** On a killed node the end of a round is the end of the loop. *)
Lemma after_broadcast_killed p tid nd :
  killed (currentState nd) = true →
  after_broadcast p tid nd
  = set_tasks (<[tid := Returned]> (tasks nd))
      (set_currentState (force_finality p (currentState (incr_k nd)))
         (incr_k nd)).
Proof.
  intros Hk. rewrite after_broadcast_eq. unfold loop_test. simpl.
  by rewrite Hk, andb_false_r.
Qed.

Lemma force_finality_decision p st :
  decided (force_finality p st) = Some (consensusPossible p) ∧
  (consensusPossible p = true → x (force_finality p st) = Some V1).
Proof. unfold force_finality. by destruct (consensusPossible p). Qed.

Lemma step_winding_down p tid n nd ev nd' out :
  winding_down p tid n nd → step p nd ev = Some (nd', out) →
  winding_down p tid n nd'.
Proof.
  intros [Hk Hcases] H. split; [by eapply step_killed|].
  destruct (task_of ev) as [tid'|] eqn:Hev.
  - (* an invocation is resumed: it can only be [tid] *)
    destruct (step_resume _ _ _ _ _ _ H Hev) as (t0 & _ & Ht0 & Hu0 & _).
    destruct Hcases as [(t & Ht & Hu & Huniq & Hn) | (_ & Hall & _)];
      [|by rewrite (Hall _ _ Ht0) in Hu0].
    assert (tid' = tid) as -> by eauto.
    assert (t0 = t) as -> by congruence. clear Ht0 Hu0.
    assert (Hlt : (tid < length (tasks nd))%nat) by (by eapply lookup_lt_Some).
    assert (Hend :
              tasks (after_broadcast p tid nd) !! tid = Some Returned ∧
              (∀ i ti, tasks (after_broadcast p tid nd) !! i = Some ti →
                       ti = Returned) ∧
              k (currentState (after_broadcast p tid nd)) = Some (n + 1) ∧
              decided (currentState (after_broadcast p tid nd))
              = Some (consensusPossible p) ∧
              (consensusPossible p = true →
               x (currentState (after_broadcast p tid nd)) = Some V1)).
    { rewrite after_broadcast_killed by done. simpl. split_and!.
      - by apply list_lookup_insert_eq.
      - intros i ti Hi. destruct (decide (i = tid)) as [->|Hne].
        + rewrite list_lookup_insert_eq in Hi by done. by simplify_eq.
        + rewrite list_lookup_insert_ne in Hi by done.
          apply unfinished_false. destruct (unfinished ti) eqn:E; [|done].
          by destruct Hne; eauto.
      - rewrite k_force_finality. simpl. by rewrite Hn.
      - apply force_finality_decision.
      - apply force_finality_decision. }
    assert (Hwait : ∀ pending,
              pending ≠ [] →
              (∃ t, tasks (await_all p tid pending nd) !! tid = Some t ∧
                    unfinished t = true ∧
                    (∀ i ti, tasks (await_all p tid pending nd) !! i = Some ti →
                             unfinished ti = true → i = tid) ∧
                    to_number (k (currentState (await_all p tid pending nd)))
                    = n)).
    { intros [|j rest] Hne; [done|]. simpl.
      exists (AwaitBroadcast (j :: rest)). split_and!; [|done| |done].
      - by apply list_lookup_insert_eq.
      - intros i ti Hi Hui. destruct (decide (i = tid)) as [|Hne']; [done|].
        rewrite list_lookup_insert_ne in Hi by done. eauto. }
    destruct ev as [| | | | |?|? peer how]; simpl in Hev; simplify_eq;
      unfold step in H.
    + unfold timer_fired in H. rewrite Ht in H.
      destruct t; simplify_eq.
      destruct (peers p) as [|j rest] eqn:E; [by right|].
      left. by apply Hwait.
    + unfold delivered in H. rewrite Ht in H.
      destruct t; simplify_eq. case_decide; simplify_eq.
      destruct (filter (λ i, i ≠ peer) pending) as [|j rest] eqn:E;
        [by right|].
      left. by apply Hwait.
  - (* a request *)
    destruct (step_request _ _ _ _ _ H Hev) as [Hk' Htasks].
    assert (Hnew : ∀ i ti, tasks nd' !! i = Some ti → unfinished ti = true →
              tasks nd !! i = Some ti).
    { intros i ti Hi Hui.
      destruct Htasks as [Ht | (_ & _ & _ & t & Ht & Hu)]; rewrite Ht in Hi;
        [done|].
      apply lookup_app_Some in Hi as [Hi | [_ Hi]]; [done|].
      apply list_lookup_singleton_Some in Hi as [_ ->].
      specialize (Hu Hui). congruence. }
    destruct Hcases
      as [(t & Ht & Hu & Huniq & Hn) | (Htid & Hall & Hkn & Hd & Hx)].
    + left. exists t. split_and!; [|done| |by rewrite Hk'].
      * destruct Htasks as [-> | (_ & _ & _ & t' & -> & _)]; [done|].
        by apply lookup_app_l_Some.
      * intros i ti Hi Hui. eauto.
    + right. split_and!.
      * destruct Htasks as [-> | (_ & _ & _ & t' & -> & _)]; [done|].
        by apply lookup_app_l_Some.
      * intros i ti Hi. apply unfinished_false.
        destruct (unfinished ti) eqn:E; [|done].
        by rewrite (Hall _ _ (Hnew _ _ Hi E)) in E.
      * by rewrite Hk'.
      * destruct (step_request_state _ _ _ _ _ H Hev) as [-> | [-> | ->]];
          [done|apply force_finality_decision|done].
      * destruct (step_request_state _ _ _ _ _ H Hev) as [-> | [-> | ->]];
          [done|apply force_finality_decision|done].
Qed.

Lemma exec_winding_down p tid n evs nd nd' :
  winding_down p tid n nd → exec p nd evs = Some nd' →
  winding_down p tid n nd'.
Proof.
  apply (exec_invariant p (winding_down p tid n)).
  intros. by eapply step_winding_down.
Qed.

(** C1, as the code has it: when [/stop] comes while an invocation of
    the loop is suspended, [killed] is true from then on and the loop
    starts no further round.  As long as the invocation is suspended
    [k] is as it was; once it has returned, [k] has gone up by one (the
    round that was under way) and the statements after the loop have
    run all the same: [decided] is true and [x] is 1 when [2 * F < N],
    [decided] is false otherwise. *)
Theorem stop_during_loop p evs0 nd0 tid t evs nd' :
  exec p (init p) evs0 = Some nd0 →
  tasks nd0 !! tid = Some t → unfinished t = true →
  exec p nd0 (GetStop :: evs) = Some nd' →
  killed (currentState nd') = true ∧
  ∃ t', tasks nd' !! tid = Some t' ∧
        if unfinished t'
        then to_number (k (currentState nd'))
             = to_number (k (currentState nd0))
        else k (currentState nd')
             = Some (to_number (k (currentState nd0)) + 1) ∧
             decided (currentState nd') = Some (consensusPossible p) ∧
             (consensusPossible p = true →
              x (currentState nd') = Some V1).
Proof.
  intros Hreach Ht Hu H.
  pose proof (exec_one_loop _ _ _ _ (one_loop_init p) Hreach) as [Huniq _].
  apply exec_cons in H as (nd1 & out & H1 & H2).
  assert (winding_down p tid (to_number (k (currentState nd0))) nd1) as Hwd.
  { unfold step, stop in H1. split.
    - by case_match; simplify_eq.
    - left. exists t.
      assert (tasks nd1 = tasks nd0 ∧
              k (currentState nd1) = k (currentState nd0)) as [Ht1 Hk1]
        by (by case_match; simplify_eq).
      rewrite Ht1, Hk1. split_and!; [done..| |done].
      intros i ti Hi Hui. eauto. }
  destruct (exec_winding_down _ _ _ _ _ _ Hwd H2)
    as [Hk [(t' & Ht' & Hu' & _ & Hn) | (Htid & _ & Hkn & Hd & Hx)]].
  - split; [done|]. exists t'. split; [done|]. by rewrite Hu'.
  - split; [done|]. by exists Returned.
Qed.

Lemma stop_during_loop_witness :
  let p := mkParams 0 4 1 V0 false 3000 in
  let nd' := mkNode (mkNodeState true (Some V1) (Some true) (Some 1))
               false [] [Returned] in
  killed (currentState nd') = true ∧
  ∃ t', tasks nd' !! 0%nat = Some t' ∧
        if unfinished t'
        then to_number (k (currentState nd')) = 0
        else k (currentState nd') = Some 1 ∧
             decided (currentState nd') = Some true ∧
             (consensusPossible p = true → x (currentState nd') = Some V1).
Proof.
  intros p nd'.
  apply (stop_during_loop p [GetStart; TimerFired 0]
           (mkNode (initialState p) true [] [AwaitBroadcast [1; 2; 3]])
           0%nat (AwaitBroadcast [1; 2; 3])
           [Delivered 0 1 ResponseEnd; Delivered 0 2 RequestError;
            Delivered 0 3 ResponseEnd] nd').
  - vm_compute; reflexivity.
  - reflexivity.
  - reflexivity.
  - vm_compute; reflexivity.
Defined.

(** C1, as it is stated, fails: node 0 of a network with N = 4 and
    F = 1 is started and stopped while its first round waits on the
    timer; [x] is 0 and [decided] is false at that point.  When the
    round in flight ends, the loop is left and, with [killed] true, [x]
    is set to 1 and [decided] to true. *)
Lemma stop_then_finality :
  let p := mkParams 0 4 1 V0 false 3000 in
  let stopped := mkNode (mkNodeState true (Some V0) (Some false) (Some 0))
                   false [] [AwaitTimer] in
  let ended := mkNode (mkNodeState true (Some V1) (Some true) (Some 1))
                 false [] [Returned] in
  exec p (init p) [GetStart; GetStop] = Some stopped ∧
  exec p stopped
    [TimerFired 0; Delivered 0 1 ResponseEnd; Delivered 0 2 ResponseEnd;
     Delivered 0 3 ResponseEnd] = Some ended ∧
  ¬ (x (currentState ended) = x (currentState stopped) ∧
     decided (currentState ended) = decided (currentState stopped)).
Proof.
  split_and!; [vm_compute; reflexivity..|].
  intros [Hx _]. discriminate Hx.
Qed.

(** * Further properties of the node *)

(** ** What a turn does to the loop *)

Lemma loop_test_true p nd :
  loop_test p nd = true →
  isRunning nd = true ∧ killed (currentState nd) = false ∧
  to_number (k (currentState nd)) < rounds p.
Proof.
  unfold loop_test, rounds. intros H.
  apply andb_true_iff in H as [H Hk]. apply andb_true_iff in H as [Hr Hkl].
  apply negb_true_iff in Hkl. split_and!; [done..|].
  destruct (consensusPossible p); lia.
Qed.

Lemma start_outcome p nd nd' out :
  step p nd GetStart = Some (nd', out) →
  nd' = nd ∨
  (isRunning nd = false ∧ isRunning nd' = true ∧
   killed (currentState nd') = killed (currentState nd) ∧
   k (currentState nd') = k (currentState nd) ∧
   (tasks nd' = tasks nd ++ [Returned] ∨
    (tasks nd' = tasks nd ++ [AwaitTimer] ∧
     killed (currentState nd) = false ∧
     to_number (k (currentState nd)) < rounds p))).
Proof.
  unfold step, start. intros H.
  destruct (isFaulty p || isRunning nd) eqn:E; [left; by simplify_eq|].
  apply orb_false_iff in E as [Hf Hr]. right.
  rewrite Hf in H. simpl in H. unfold loop_head in H.
  destruct (loop_test p (set_isRunning true nd)) eqn:Hl; simplify_eq; simpl.
  - apply loop_test_true in Hl as (_ & Hk & Hlt). split_and!; [done..|].
    right. by split_and!.
  - rewrite killed_force_finality, k_force_finality.
    split_and!; [done..|]. by left.
Qed.

Lemma await_all_outcome p tid pending nd :
  (pending ≠ [] ∧
   await_all p tid pending nd
   = set_tasks (<[tid := AwaitBroadcast pending]> (tasks nd)) nd) ∨
  (pending = [] ∧
   k (currentState (await_all p tid pending nd))
   = Some (to_number (k (currentState nd)) + 1) ∧
   (tasks (await_all p tid pending nd) = <[tid := Returned]> (tasks nd) ∨
    (tasks (await_all p tid pending nd) = <[tid := AwaitTimer]> (tasks nd) ∧
     killed (currentState nd) = false ∧
     to_number (k (currentState nd)) + 1 < rounds p))).
Proof.
  destruct pending as [|i rest]; [right|left; by split].
  split; [done|]. simpl. rewrite after_broadcast_eq.
  destruct (loop_test p (incr_k nd)) eqn:Hl; simpl.
  - apply loop_test_true in Hl as (_ & Hk & Hlt). split; [done|].
    right. by split_and!.
  - rewrite k_force_finality. split; [done|]. by left.
Qed.

(** The pending deliveries a resumed invocation hands to [await_all]. *)
Lemma step_resume_await p nd ev nd' out tid :
  step p nd ev = Some (nd', out) → task_of ev = Some tid →
  ∃ pending,
    nd' = await_all p tid pending nd ∧
    ((ev = TimerFired tid ∧ tasks nd !! tid = Some AwaitTimer ∧
      pending = peers p) ∨
     (∃ peer how old,
        ev = Delivered tid peer how ∧
        tasks nd !! tid = Some (AwaitBroadcast old) ∧
        pending = filter (λ i, i ≠ peer) old)).
Proof.
  intros H Hev. destruct ev; simplify_eq; simpl in Hev; simplify_eq;
    unfold step in H.
  - unfold timer_fired in H.
    destruct (tasks nd !! tid) as [[]|] eqn:E; simplify_eq.
    eexists. split; [done|]. by left.
  - unfold delivered in H.
    destruct (tasks nd !! tid) as [[]|] eqn:E; simplify_eq.
    case_decide; simplify_eq.
    eexists. split; [done|]. right. by eexists _, _, _.
Qed.

Lemma lifecycle_init p : lifecycle p 0 (init p).
Proof.
  pose proof (rounds_pos p). unfold lifecycle, in_flight, init, initialState.
  simpl. split_and!; try done.
  - by destruct (isFaulty p).
  - by destruct (isFaulty p).
  - lia.
Qed.

Lemma step_lifecycle p c nd ev nd' out :
  lifecycle p c nd → step p nd ev = Some (nd', out) →
  lifecycle p (c + (if is_timer ev then 1 else 0)) nd'.
Proof.
  intros (Hfirst & Hflag & Hk0 & Hc & Hle & Hlt) H.
  destruct (task_of ev) as [tid|] eqn:Hev.
  - (* the first invocation is resumed *)
    destruct (step_resume _ _ _ _ _ _ H Hev) as (t0 & _ & Ht0 & Hu0 & _).
    assert (tid = 0%nat) as -> by eauto.
    destruct (step_resume_await _ _ _ _ _ _ H Hev) as (pending & -> & Hcase).
    destruct (await_all_frame p 0 pending nd)
      as (t' & Htasks & Hrun & Hkill & _).
    assert (Hlen : (0 < length (tasks nd))%nat) by (by eapply lookup_lt_Some).
    assert (Hne : tasks nd ≠ []) by (intros E; by rewrite E in Ht0).
    split_and!.
    + rewrite Htasks. intros i t Hi Hu. destruct i as [|i]; [done|].
      rewrite list_lookup_insert_ne in Hi by done. eauto.
    + intros _. rewrite Hrun, Hkill. by apply Hflag.
    + destruct (await_all_outcome p 0 pending nd)
        as [[_ ->] | (_ & -> & _)]; simpl; [done|lia].
    + unfold in_flight in *.
      destruct (await_all_outcome p 0 pending nd)
        as [[_ ->] | (_ & -> & [-> | (-> & _)])]; simpl;
        rewrite ?list_lookup_insert_eq by done;
        destruct Hcase as [(-> & Ht & _) | (? & ? & ? & -> & Ht & _)];
        rewrite Ht in Hc; simpl; lia.
    + destruct Hcase as [(-> & Ht & _) | (? & ? & ? & -> & Ht & _)]; simpl.
      * specialize (Hlt Ht). lia.
      * lia.
    + unfold in_flight in *.
      destruct (await_all_outcome p 0 pending nd)
        as [[_ ->] | (_ & _ & [-> | (-> & _ & Hlt')])]; simpl;
        rewrite ?list_lookup_insert_eq by done; try done.
      intros _.
      destruct Hcase as [(-> & Ht & _) | (? & ? & ? & -> & Ht & _)];
        rewrite Ht in Hc; simpl; lia.
  - (* a request *)
    assert (is_timer ev = false) as -> by (by destruct ev).
    rewrite Z.add_0_r.
    assert (Hsame : ∀ nd2,
              tasks nd2 = tasks nd →
              k (currentState nd2) = k (currentState nd) →
              (isRunning nd2 = isRunning nd ∧
               killed (currentState nd2) = killed (currentState nd)) ∨
              killed (currentState nd2) = true →
              lifecycle p c nd2).
    { intros nd2 Ht Hk Hrk. unfold lifecycle, in_flight. rewrite Ht, Hk.
      split_and!; try done. intros Hne.
      destruct Hrk as [[-> ->] | ->]; [by apply Hflag|by right]. }
    destruct ev; try discriminate Hev.
    + injection H as <- _. apply Hsame; eauto.
    + injection H as <- _. apply Hsame; eauto.
    + unfold step, message in H.
      destruct (killed (currentState nd)) eqn:Hkl; injection H as <- _;
        apply Hsame; simpl; eauto.
    + destruct (start_outcome _ _ _ _ H)
        as [-> | (Hr & Hr' & Hkl & Hk & Hnew)]; [apply Hsame; eauto|].
      assert (Hold : tasks nd ≠ [] → killed (currentState nd) = true).
      { intros Hne. destruct (Hflag Hne); congruence. }
      unfold lifecycle, in_flight. rewrite Hk.
      destruct (tasks nd) as [|t0 ts] eqn:Et.
      * assert (in_flight nd = 0) as Hif by (unfold in_flight; by rewrite Et).
        destruct Hnew as [-> | (-> & _ & Hlt')]; simpl; split_and!;
          try (intros [|i] t Hi Hu; [done|by simpl in Hi]);
          try (intros _; by left); try done; try (intros _); lia.
      * assert (killed (currentState nd) = true) as Hkt by (by apply Hold).
        destruct Hnew as [-> | (_ & ? & _)]; [|congruence].
        unfold in_flight in Hc. rewrite Et in Hc. simpl in *.
        split_and!; [|by left|done..].
        intros i t Hi Hu.
        change (t0 :: ts ++ [Returned]) with ((t0 :: ts) ++ [Returned]) in Hi.
        apply lookup_app_Some in Hi as [Hi | [_ Hi]]; [by eauto|].
        apply list_lookup_singleton_Some in Hi as [_ <-]. done.
    + unfold step, stop in H.
      destruct (killed (currentState nd)) eqn:Hkl; injection H as <- _;
        apply Hsame; simpl; eauto.
Qed.

Lemma exec_lifecycle p : ∀ evs c nd nd',
  lifecycle p c nd → exec p nd evs = Some nd' →
  lifecycle p (c + rounds_begun evs) nd'.
Proof.
  unfold rounds_begun.
  induction evs as [|ev evs IH]; intros c nd nd' Hinv H.
  - rewrite exec_nil in H. simplify_eq. simpl. by rewrite Z.add_0_r.
  - apply exec_cons in H as (nd1 & out & H1 & H2).
    pose proof (IH _ _ _ (step_lifecycle _ _ _ _ _ _ Hinv H1) H2) as Hend.
    destruct (is_timer ev) eqn:E.
    + rewrite filter_cons_True by done. simpl length.
      replace (c + Z.of_nat (S (length (filter (λ ev, is_timer ev = true) evs))))
        with (c + 1 + Z.of_nat (length (filter (λ ev, is_timer ev = true) evs)))
        by lia.
      done.
    + rewrite filter_cons_False by (by rewrite E).
      by rewrite Z.add_0_r in Hend.
Qed.

Lemma step_k p nd ev nd' out :
  step p nd ev = Some (nd', out) →
  k (currentState nd') = k (currentState nd) ∨
  k (currentState nd') = Some (to_number (k (currentState nd)) + 1).
Proof.
  intros H. destruct (task_of ev) as [tid|] eqn:Hev.
  - destruct (step_resume_await _ _ _ _ _ _ H Hev) as (pending & -> & _).
    destruct (await_all_outcome p tid pending nd)
      as [[_ ->] | (_ & -> & _)]; [by left|by right].
  - left. by destruct (step_request _ _ _ _ _ H Hev).
Qed.

(** ** One loop in the life of a node *)

(** Only the first invocation of [/start] that passes the guard can
    ever be suspended: in every state a node reaches, an invocation
    that has not returned is invocation 0, so no two loops are ever
    under way, and one is under way only while [isRunning] or [killed]
    is set. *)
Theorem only_first_invocation_suspends p evs nd :
  exec p (init p) evs = Some nd →
  (∀ i t, tasks nd !! i = Some t → unfinished t = true → i = 0%nat) ∧
  (tasks nd ≠ [] → isRunning nd = true ∨ killed (currentState nd) = true).
Proof.
  intros H.
  destruct (exec_lifecycle p evs 0 _ _ (lifecycle_init p) H)
    as (Hfirst & Hflag & _).
  by split.
Qed.

Lemma only_first_invocation_suspends_witness :
  let p := mkParams 0 4 1 V0 false 3000 in
  let nd := mkNode (mkNodeState true (Some V1) (Some true) (Some 0))
              true [] [AwaitBroadcast [1; 2; 3]; Returned] in
  (∀ i t, tasks nd !! i = Some t → unfinished t = true → i = 0%nat) ∧
  (tasks nd ≠ [] → isRunning nd = true ∨ killed (currentState nd) = true).
Proof.
  intros p nd.
  apply (only_first_invocation_suspends p
           [GetStart; GetStop; GetStart; TimerFired 0] nd).
  vm_compute; reflexivity.
Defined.

(** The round counter: a turn leaves [k] as it is or adds one to it,
    and in every state a node reaches [k] lies between 0 and the bound
    of its loop (2 when [2 * F < N], 11 otherwise); on a non-faulty
    node it is never null. *)
Theorem round_counter_bounds p :
  (∀ nd ev nd' out,
     step p nd ev = Some (nd', out) →
     k (currentState nd') = k (currentState nd) ∨
     k (currentState nd') = Some (to_number (k (currentState nd)) + 1)) ∧
  (∀ evs nd,
     exec p (init p) evs = Some nd →
     0 ≤ to_number (k (currentState nd)) ≤ rounds p ∧
     (isFaulty p = false → is_Some (k (currentState nd)))).
Proof.
  split; [apply step_k|].
  intros evs nd H. split.
  - destruct (exec_lifecycle p evs 0 _ _ (lifecycle_init p) H)
      as (_ & _ & Hk0 & Hc & Hle & _).
    split; [done|]. unfold in_flight in Hc. repeat case_match; lia.
  - intros Hf. revert H.
    apply (exec_invariant p (λ n, is_Some (k (currentState n)))).
    + intros n ev n' out Hn Hs.
      destruct (step_k _ _ _ _ _ Hs) as [-> | ->]; [done|by eexists].
    + unfold init, initialState. simpl. rewrite Hf. by eexists.
Qed.

Lemma round_counter_bounds_witness :
  let p := mkParams 0 3 2 V1 false 3000 in
  let nd := mkNode (mkNodeState true (Some V1) (Some false) (Some 1))
              false [] [Returned] in
  0 ≤ to_number (k (currentState nd)) ≤ 11 ∧ is_Some (k (currentState nd)).
Proof.
  intros p nd.
  destruct (proj2 (round_counter_bounds p)
              [GetStart; TimerFired 0; GetStop; Delivered 0 2 RequestError;
               Delivered 0 1 ResponseEnd] nd) as [Hb Hs].
  - vm_compute; reflexivity.
  - split; [exact Hb|]. apply Hs. reflexivity.
Defined.

(** The rounds a node begins in its life: after any run, the number of
    timer turns is [k], plus one while a broadcast is in flight; it
    never exceeds the bound of the loop; and when the loop has
    returned on a node that was not stopped, it is exactly that bound
    (2 or 11). *)
Theorem rounds_begun_bounds p evs nd :
  exec p (init p) evs = Some nd →
  rounds_begun evs = to_number (k (currentState nd)) + in_flight nd ∧
  rounds_begun evs ≤ rounds p ∧
  (isFaulty p = false → killed (currentState nd) = false →
   Returned ∈ tasks nd → rounds_begun evs = rounds p).
Proof.
  intros H.
  destruct (exec_lifecycle p evs 0 _ _ (lifecycle_init p) H)
    as (_ & _ & _ & Hc & Hle & _).
  split_and!; [lia|lia|].
  intros Hf Hk Hret.
  pose proof (exec_returned _ _ _ Hf H Hk Hret) as Hs.
  destruct (exec_on_course _ _ _ Hf H Hk)
    as [(_ & Ht & _) | (_ & [(t & n & Hu & _ & Hnd) | (Ht & _)])].
  - rewrite Ht in Hret. by apply elem_of_nil in Hret.
  - rewrite Hnd in Hret. simpl in Hret.
    apply list_elem_of_singleton in Hret as <-. done.
  - unfold in_flight in Hc. rewrite Ht, Hs in Hc. simpl in Hc. lia.
Qed.

Lemma rounds_begun_bounds_witness :
  let p := mkParams 0 1 0 V0 false 3000 in
  let nd := mkNode (mkNodeState false (Some V1) (Some true) (Some 2))
              true [] [Returned] in
  rounds_begun [GetStart; TimerFired 0; GetStatus; TimerFired 0] = 2 ∧
  rounds_begun [GetStart; TimerFired 0; GetStatus; TimerFired 0] ≤ rounds p.
Proof.
  intros p nd.
  destruct (rounds_begun_bounds p
              [GetStart; TimerFired 0; GetStatus; TimerFired 0] nd)
    as (_ & Hle & Heq).
  - vm_compute; reflexivity.
  - split; [|exact Hle].
    apply (Heq eq_refl eq_refl). apply list_elem_of_here.
Defined.

(** ** What a run emits *)

Lemma run_step p nd ev nd1 out1 evs :
  step p nd ev = Some (nd1, out1) →
  run p nd (ev :: evs) = (λ r, (r.1, out1 ++ r.2)) <$> run p nd1 evs.
Proof.
  intros H. simpl. rewrite H. by destruct (run p nd1 evs) as [[]|].
Qed.

Lemma run_cons p nd ev evs nd' out :
  run p nd (ev :: evs) = Some (nd', out) →
  ∃ nd1 out1 out2,
    step p nd ev = Some (nd1, out1) ∧ run p nd1 evs = Some (nd', out2) ∧
    out = out1 ++ out2.
Proof.
  simpl. destruct (step p nd ev) as [[nd1 out1]|] eqn:E1; [|done].
  destruct (run p nd1 evs) as [[nd2 out2]|] eqn:E2; [|done].
  intros ?; simplify_eq. by exists nd1, out1, out2.
Qed.


(** What each kind of turn emits. *)
Lemma step_output p nd ev nd' out :
  step p nd ev = Some (nd', out) →
  match ev with
  | TimerFired _ =>
      out = broadcastVote p (x (currentState nd)) (k (currentState nd))
  | Delivered _ _ _ => out = []
  | _ => ∃ status body, out = [Respond status body]
  end.
Proof.
  intros H. destruct ev; unfold step in H.
  - simplify_eq. unfold status. case_match; by eexists _, _.
  - simplify_eq. unfold getState. case_match; by eexists _, _.
  - unfold message in H. case_match; simplify_eq; by eexists _, _.
  - unfold start in H. destruct (isFaulty p || isRunning nd);
      [simplify_eq; by eexists _, _|].
    destruct (if negb (isFaulty p) then _ else _) as [n t].
    simplify_eq. by eexists _, _.
  - unfold stop in H. case_match; simplify_eq; by eexists _, _.
  - unfold timer_fired in H. repeat case_match; by simplify_eq.
  - unfold delivered in H. repeat case_match; by simplify_eq.
Qed.

Lemma posts_broadcastVote p v r : posts (broadcastVote p v r) = broadcastVote p v r.
Proof.
  unfold posts, broadcastVote. induction (peers p) as [|i l IH]; [done|].
  rewrite fmap_cons, filter_cons_True by done. by rewrite IH.
Qed.

Lemma responses_broadcastVote p v r : responses (broadcastVote p v r) = [].
Proof.
  unfold responses, broadcastVote. induction (peers p) as [|i l IH]; [done|].
  rewrite fmap_cons, filter_cons_False by (simpl; congruence). apply IH.
Qed.

(** Every request is answered exactly once, and nothing else is: the
    responses of a run are as many as its requests (timer turns and
    deliveries answer nothing). *)
Theorem one_response_per_request p : ∀ evs nd nd' out,
  run p nd evs = Some (nd', out) →
  length (responses out) = length (requests evs).
Proof.
  induction evs as [|ev evs IH]; intros nd nd' out H.
  - simpl in H. by simplify_eq.
  - apply run_cons in H as (nd1 & out1 & out2 & H1 & H2 & ->).
    specialize (IH _ _ _ H2). unfold responses, requests in *.
    rewrite filter_app, length_app, IH.
    pose proof (step_output _ _ _ _ _ H1) as Ho.
    destruct ev; try destruct Ho as (st & bd & ->);
      try (rewrite (filter_cons_True (λ ev, task_of ev = None)) by done;
           by rewrite (filter_cons_True _ (Respond st bd)) by done).
    + rewrite (filter_cons_False (λ ev, task_of ev = None)) by done.
      subst out1.
      fold (responses (broadcastVote p (x (currentState nd))
                         (k (currentState nd)))).
      by rewrite responses_broadcastVote.
    + rewrite (filter_cons_False (λ ev, task_of ev = None)) by done.
      by subst out1.
Qed.

Lemma one_response_per_request_witness :
  let p := mkParams 0 4 1 V0 false 3000 in
  ∃ nd' out,
    run p (init p)
      [GetStart; GetStatus; TimerFired 0; Delivered 0 2 RequestError;
       PostMessage JNull; GetStop; GetStop] = Some (nd', out) ∧
    length (responses out) = 5%nat.
Proof.
  intros p.
  destruct (run p (init p)
              [GetStart; GetStatus; TimerFired 0; Delivered 0 2 RequestError;
               PostMessage JNull; GetStop; GetStop])
    as [[nd' out]|] eqn:E; [|vm_compute in E; discriminate E].
  exists nd', out. split; [reflexivity|].
  apply (one_response_per_request p _ _ _ _ E).
Defined.

(** The votes of a run go to peers only: every post a run emits is a
    vote object sent to the [/message] path of the port of a node [i]
    of the network other than the node itself, so never to the port the
    node listens on; and the posts are as many as the rounds begun
    times the number of peers. *)
Theorem votes_go_to_peers p : ∀ evs nd nd' out,
  run p nd evs = Some (nd', out) →
  (∀ o, o ∈ posts out →
     post_port o ≠ Some (listen_port p) ∧
     ∃ i v r, o = HttpPost (BASE_NODE_PORT p + i) "/message" (vote v r) ∧
              0 ≤ i < N p ∧ i ≠ nodeId p) ∧
  Z.of_nat (length (posts out)) = rounds_begun evs * Z.of_nat (length (peers p)).
Proof.
  unfold rounds_begun.
  induction evs as [|ev evs IH]; intros nd nd' out H.
  - simpl in H. simplify_eq. split; [|done].
    intros o Ho. by apply elem_of_nil in Ho.
  - apply run_cons in H as (nd1 & out1 & out2 & H1 & H2 & ->).
    destruct (IH _ _ _ H2) as [IHo IHn]. unfold posts in *.
    rewrite filter_app, length_app, Nat2Z.inj_add, IHn.
    pose proof (step_output _ _ _ _ _ H1) as Ho.
    assert (Hrest : ∀ o, o ∈ filter (λ o, is_post o = true) out1 ++
                             filter (λ o, is_post o = true) out2 →
              filter (λ o, is_post o = true) out1 = [] →
              post_port o ≠ Some (listen_port p) ∧
              ∃ i v r,
                o = HttpPost (BASE_NODE_PORT p + i) "/message" (vote v r) ∧
                0 ≤ i < N p ∧ i ≠ nodeId p).
    { intros o Hin E. rewrite E in Hin. by apply IHo. }
    destruct ev; try destruct Ho as (st & bd & ->);
      try (rewrite (filter_cons_False _ (Respond st bd))
             by (simpl; congruence);
           rewrite (filter_cons_False (λ ev, is_timer ev = true))
             by (simpl; congruence);
           split; [intros o Hin; by apply Hrest|simpl; lia]).
    + (* the timer of a round: the broadcast *)
      subst out1.
      rewrite (filter_cons_True (λ ev, is_timer ev = true)) by done.
      fold (posts (broadcastVote p (x (currentState nd))
                     (k (currentState nd)))).
      rewrite posts_broadcastVote. split.
      * intros o Hin. apply elem_of_app in Hin as [Hin | Hin];
          [|by apply IHo].
        unfold broadcastVote in Hin.
        apply list_elem_of_fmap in Hin as (i & -> & Hi).
        apply elem_of_peers in Hi as [Hi Hne]. split.
        -- unfold listen_port. simpl. intros E. injection E as E. lia.
        -- by eexists _, _, _.
      * unfold broadcastVote. rewrite length_fmap. simpl length. lia.
    + subst out1.
      rewrite (filter_cons_False (λ ev, is_timer ev = true))
        by (simpl; congruence).
      split; [intros o Hin; by apply Hrest|simpl; lia].
Qed.

Lemma votes_go_to_peers_witness :
  let p := mkParams 1 3 0 V0 false 3000 in
  ∃ nd' out,
    run p (init p) [GetStart; TimerFired 0; Delivered 0 0 ResponseEnd;
                    Delivered 0 2 ResponseEnd; TimerFired 0]
    = Some (nd', out) ∧
    Z.of_nat (length (posts out)) = 2 * 2.
Proof.
  intros p.
  destruct (run p (init p) [GetStart; TimerFired 0; Delivered 0 0 ResponseEnd;
                            Delivered 0 2 ResponseEnd; TimerFired 0])
    as [[nd' out]|] eqn:E; [|vm_compute in E; discriminate E].
  exists nd', out. split; [reflexivity|].
  apply (proj2 (votes_go_to_peers p _ _ _ _ E)).
Defined.

(** ** Addressing *)

Lemma filter_port_fmap (b j : Z) (mk : Z → Json) : ∀ l : list Z,
  NoDup l →
  filter (λ o, post_port o = Some (b + j))
    ((λ i, HttpPost (b + i) "/message" (mk i)) <$> l)
  = if decide (j ∈ l) then [HttpPost (b + j) "/message" (mk j)] else [].
Proof.
  induction 1 as [|i l Hi Hnd IH]; [done|].
  rewrite fmap_cons. destruct (decide (i = j)) as [->|Hne].
  - rewrite filter_cons_True by done. rewrite IH.
    rewrite decide_False by done.
    by rewrite decide_True by apply list_elem_of_here.
  - rewrite filter_cons_False by (simpl; intros E; injection E as E; lia).
    rewrite IH. destruct (decide (j ∈ l)) as [Hin|Hnin].
    + by rewrite decide_True by (by right).
    + rewrite decide_False; [done|].
      intros Hin. apply elem_of_cons in Hin as [->|Hin]; done.
Qed.

(** A broadcast reaches every other node of the network on the port
    that node listens on, exactly once, and never the sender's own
    port: for nodes [p] and [q] built with the same base port, [q]
    within the network of [p] and not [p] itself, just one post of a
    broadcast of [p] goes to the port [q] listens on, and none to the
    port [p] listens on. *)
Theorem peer_addressed_once p q v r :
  BASE_NODE_PORT q = BASE_NODE_PORT p →
  0 ≤ nodeId q < N p → nodeId q ≠ nodeId p →
  filter (λ o, post_port o = Some (listen_port q)) (broadcastVote p v r)
  = [HttpPost (listen_port q) "/message" (vote v r)] ∧
  filter (λ o, post_port o = Some (listen_port p)) (broadcastVote p v r) = [].
Proof.
  intros Hb Hq Hne. unfold listen_port, broadcastVote. rewrite Hb.
  rewrite !(filter_port_fmap _ _ (λ _, vote v r)) by apply NoDup_peers.
  split.
  - rewrite decide_True; [done|]. by apply elem_of_peers.
  - rewrite decide_False; [done|]. rewrite elem_of_peers. lia.
Qed.

Lemma peer_addressed_once_witness :
  let p := mkParams 0 4 1 V0 false 3000 in
  let q := mkParams 2 4 1 V1 true 3000 in
  filter (λ o, post_port o = Some 3002) (broadcastVote p (Some V0) (Some 1))
  = [HttpPost 3002 "/message" (vote (Some V0) (Some 1))] ∧
  filter (λ o, post_port o = Some 3000) (broadcastVote p (Some V0) (Some 1))
  = [].
Proof.
  intros p q.
  apply (peer_addressed_once p q (Some V0) (Some 1)).
  - reflexivity.
  - simpl. lia.
  - simpl. lia.
Defined.

(** ** A faulty node *)

Lemma run_faulty_idle p :
  isFaulty p = true →
  ∀ evs nd nd' out,
    faulty_idle nd → run p nd evs = Some (nd', out) →
    faulty_idle nd' ∧ posts out = [] ∧ rounds_begun evs = 0.
Proof.
  intros Hf. unfold rounds_begun, posts.
  induction evs as [|ev evs IH]; intros nd nd' out Hidle H.
  - simpl in H. by simplify_eq.
  - apply run_cons in H as (nd1 & out1 & out2 & H1 & H2 & ->).
    destruct Hidle as (Ht & Hr & Hx & Hd & Hk).
    assert (faulty_idle nd1 ∧ is_timer ev = false ∧
            ∃ st bd, out1 = [Respond st bd]) as (Hidle1 & Hev & st & bd & ->).
    { pose proof (step_output _ _ _ _ _ H1) as Ho.
      destruct ev; unfold step in H1.
      - simplify_eq. by split_and!.
      - simplify_eq. by split_and!.
      - split_and!; [|done..]. unfold message in H1.
        by case_match; simplify_eq.
      - split_and!; [|done..]. unfold start in H1. rewrite Hf in H1.
        simpl in H1. by simplify_eq.
      - split_and!; [|done..]. unfold stop in H1.
        by case_match; simplify_eq.
      - unfold timer_fired in H1. by rewrite Ht in H1.
      - unfold delivered in H1. by rewrite Ht in H1. }
    destruct (IH _ _ _ Hidle1 H2) as (Hend & Hposts & Hbegun).
    split_and!; [done| |].
    + rewrite filter_app, Hposts.
      by rewrite (filter_cons_False _ (Respond st bd)) by (simpl; congruence).
    + by rewrite filter_cons_False by (by rewrite Hev).
Qed.

(** A faulty node never takes part: whatever requests it gets, its [x],
    [decided] and [k] stay null, [isRunning] stays false, no invocation
    of the loop exists, no round begins and no vote is ever posted. *)
Theorem faulty_node_inert p evs nd out :
  isFaulty p = true →
  run p (init p) evs = Some (nd, out) →
  faulty_idle nd ∧ posts out = [] ∧ rounds_begun evs = 0.
Proof.
  intros Hf. apply (run_faulty_idle p Hf).
  unfold faulty_idle, init, initialState. simpl. by rewrite Hf.
Qed.

Lemma faulty_node_inert_witness :
  let p := mkParams 2 4 1 V1 true 3000 in
  let nd := mkNode (mkNodeState true None None None) false [JNum 1] [] in
  faulty_idle nd ∧
  posts [Respond 400 (Text "Cannot start");
         Respond 200 (Text "Message received");
         Respond 200 (Text "Consensus algorithm stopped");
         Respond 400 (Text "Cannot start")] = [].
Proof.
  intros p nd.
  destruct (faulty_node_inert p
              [GetStart; PostMessage (JNum 1); GetStop; GetStart] nd
              [Respond 400 (Text "Cannot start");
               Respond 200 (Text "Message received");
               Respond 200 (Text "Consensus algorithm stopped");
               Respond 400 (Text "Cannot start")])
    as (Hidle & Hposts & _).
  - reflexivity.
  - vm_compute; reflexivity.
  - split; [exact Hidle|exact Hposts].
Defined.

(** ** The decision *)

Lemma step_decision p nd ev nd' out :
  step p nd ev = Some (nd', out) →
  (x (currentState nd') = x (currentState nd) ∧
   decided (currentState nd') = decided (currentState nd)) ∨
  (decided (currentState nd') = Some (consensusPossible p) ∧
   x (currentState nd')
   = if consensusPossible p then Some V1 else x (currentState nd)).
Proof.
  intros H. destruct (task_of ev) as [tid|] eqn:Hev.
  - destruct (step_resume_await _ _ _ _ _ _ H Hev) as (pending & -> & _).
    destruct pending as [|i rest]; simpl; [|by left].
    rewrite after_broadcast_eq. destruct (loop_test p (incr_k nd)); simpl;
      [by left|right].
    unfold force_finality. by destruct (consensusPossible p).
  - destruct (step_request_state _ _ _ _ _ H Hev) as [-> | [-> | ->]];
      [by left| |by left].
    right. unfold force_finality. by destruct (consensusPossible p).
Qed.

(** The values a non-faulty node can hold: in every state it reaches,
    either [x] is still the initial value and [decided] is false, or
    [2 * F < N], [x] is 1 and [decided] is true.  So [x] and [decided]
    are never null, [decided] is true only together with [x = 1], and
    with [2 * F >= N] neither [x] nor [decided] ever changes. *)
Theorem decision_values p evs nd :
  isFaulty p = false →
  exec p (init p) evs = Some nd →
  decision_shape p (currentState nd).
Proof.
  intros Hf.
  apply (exec_invariant p (λ n, decision_shape p (currentState n))).
  - intros n ev n' out Hn Hs. unfold decision_shape in *.
    destruct (step_decision _ _ _ _ _ Hs) as [[-> ->] | [-> ->]]; [done|].
    destruct (consensusPossible p) eqn:Hc; [by right|].
    left. destruct Hn as [[-> _] | (? & _)]; done.
  - left. unfold init, initialState. simpl. by rewrite Hf.
Qed.

Lemma decision_values_witness :
  let p := mkParams 0 3 2 VUnknown false 3000 in
  decision_shape p (mkNodeState true (Some VUnknown) (Some false) (Some 1)).
Proof.
  intros p.
  apply (decision_values p
           [GetStart; TimerFired 0; Delivered 0 1 ResponseEnd; GetStop;
            Delivered 0 2 ResponseEnd]
           (mkNode (mkNodeState true (Some VUnknown) (Some false) (Some 1))
              false [] [Returned])).
  - reflexivity.
  - vm_compute; reflexivity.
Defined.

(** ** Starting again, and stopping *)

(** [isRunning] is a latch only [/stop] releases: once a [/start] has
    been handled, in whatever state, every later [/start] answers 400
    "Cannot start" and changes nothing for as long as the node is not
    stopped, also after the loop has returned. *)
Theorem start_is_latched p nd0 evs nd :
  exec p nd0 (GetStart :: evs) = Some nd →
  killed (currentState nd) = false →
  step p nd GetStart = Some (nd, [Respond 400 (Text "Cannot start")]).
Proof.
  intros H Hk. apply exec_cons in H as (nd1 & out & H1 & H2).
  assert (isFaulty p || isRunning nd || killed (currentState nd) = true)
    as Hlatch.
  { revert H2.
    apply (exec_invariant p
             (λ n, isFaulty p || isRunning n || killed (currentState n)
                   = true)).
    - intros n ev n' o Hn Hs.
      destruct (isFaulty p); [done|]. simpl in *.
      apply orb_true_iff in Hn as [Hr | Hkl];
        [|rewrite (step_killed _ _ _ _ _ Hs Hkl); by rewrite orb_true_r].
      destruct (task_of ev) as [tid|] eqn:Hev.
      + destruct (step_resume _ _ _ _ _ _ Hs Hev) as (_ & _ & _ & _ & _ & -> & _).
        by rewrite Hr.
      + destruct ev; try discriminate Hev; unfold step in Hs.
        * injection Hs as <- _. by rewrite Hr.
        * injection Hs as <- _. by rewrite Hr.
        * unfold message in Hs.
          destruct (killed (currentState n)); injection Hs as <- _;
            simpl; by rewrite Hr.
        * unfold start in Hs. rewrite Hr, orb_true_r in Hs.
          injection Hs as <- _. by rewrite Hr.
        * unfold stop in Hs.
          destruct (killed (currentState n)); injection Hs as <- _;
            simpl; [by rewrite Hr|done].
    - unfold step, start in H1.
      destruct (isFaulty p) eqn:Hf; [done|]. simpl in *.
      destruct (isRunning nd0) eqn:Hr; simpl in H1.
      + simplify_eq. by rewrite Hr.
      + destruct (loop_head p (set_isRunning true nd0)) as [n t] eqn:E.
        simplify_eq. unfold loop_head in E.
        by case_match; simplify_eq. }
  rewrite Hk, orb_false_r in Hlatch.
  unfold step, start. by rewrite Hlatch.
Qed.

Lemma start_is_latched_witness :
  let p := mkParams 0 1 0 V0 false 3000 in
  let nd := mkNode (mkNodeState false (Some V1) (Some true) (Some 2))
              true [] [Returned] in
  step p nd GetStart = Some (nd, [Respond 400 (Text "Cannot start")]).
Proof.
  intros p nd.
  apply (start_is_latched p (init p) [TimerFired 0; TimerFired 0] nd).
  - vm_compute; reflexivity.
  - reflexivity.
Defined.

Lemma step_last_round p m nd ev nd' out :
  last_round m nd → step p nd ev = Some (nd', out) →
  last_round (m - (if is_timer ev then 1 else 0)) nd'.
Proof.
  intros (Hk & Hfirst & Hm & Hone) H.
  split; [by eapply step_killed|].
  destruct (task_of ev) as [tid|] eqn:Hev.
  - destruct (step_resume _ _ _ _ _ _ H Hev) as (t0 & _ & Ht0 & Hu0 & _).
    assert (tid = 0%nat) as -> by eauto.
    destruct (step_resume_await _ _ _ _ _ _ H Hev) as (pending & -> & Hcase).
    assert (Hlen : (0 < length (tasks nd))%nat) by (by eapply lookup_lt_Some).
    destruct (await_all_frame p 0 pending nd) as (t' & Htasks & _).
    split_and!.
    + rewrite Htasks. intros i t Hi Hu. destruct i as [|i]; [done|].
      rewrite list_lookup_insert_ne in Hi by done. eauto.
    + destruct Hcase as [(-> & Ht & _) | (? & ? & ? & -> & _)]; simpl;
        [specialize (Hone Ht)|]; lia.
    + destruct (await_all_outcome p 0 pending nd)
        as [[_ ->] | (_ & _ & [-> | (_ & ? & _)])]; simpl;
        rewrite ?list_lookup_insert_eq by done; try done. congruence.
  - assert (is_timer ev = false) as -> by (by destruct ev).
    rewrite Z.sub_0_r.
    destruct (step_request _ _ _ _ _ H Hev)
      as [_ [Ht | (_ & _ & _ & t & Ht & Hu)]]; rewrite Ht.
    + by split_and!.
    + assert (unfinished t = false) as Hnu.
      { destruct (unfinished t); [|done]. specialize (Hu eq_refl).
        congruence. }
      split_and!; [|done|].
      * intros i ti Hi Hui.
        apply lookup_app_Some in Hi as [Hi | [_ Hi]]; [by eauto|].
        apply list_lookup_singleton_Some in Hi as [_ <-]. congruence.
      * intros Hi. apply Hone.
        apply lookup_app_Some in Hi as [Hi | [_ Hi]]; [done|].
        apply list_lookup_singleton_Some in Hi as [_ ->]. done.
Qed.

Lemma exec_last_round p : ∀ evs m nd nd',
  last_round m nd → exec p nd evs = Some nd' →
  last_round (m - rounds_begun evs) nd'.
Proof.
  unfold rounds_begun.
  induction evs as [|ev evs IH]; intros m nd nd' Hinv H.
  - rewrite exec_nil in H. simplify_eq. simpl. by rewrite Z.sub_0_r.
  - apply exec_cons in H as (nd1 & out & H1 & H2).
    pose proof (IH _ _ _ (step_last_round _ _ _ _ _ _ Hinv H1) H2) as Hend.
    destruct (is_timer ev) eqn:E.
    + rewrite filter_cons_True by done. simpl length.
      replace (m - Z.of_nat (S (length (filter (λ ev, is_timer ev = true) evs))))
        with (m - 1 - Z.of_nat (length (filter (λ ev, is_timer ev = true) evs)))
        by lia.
      done.
    + rewrite filter_cons_False by (by rewrite E).
      by rewrite Z.sub_0_r in Hend.
Qed.

(** A stopped node begins at most one more round: from a killed state
    a node has reached, any run has at most one timer turn, and none
    unless the loop was waiting on the timer of a round when the node
    was stopped.  (That round's votes are still posted.) *)
Theorem one_round_after_stop p evs0 nd evs nd' :
  exec p (init p) evs0 = Some nd →
  killed (currentState nd) = true →
  exec p nd evs = Some nd' →
  rounds_begun evs ≤ 1 ∧
  (tasks nd !! 0%nat ≠ Some AwaitTimer → rounds_begun evs = 0).
Proof.
  intros Hreach Hk H.
  destruct (exec_lifecycle p evs0 0 _ _ (lifecycle_init p) Hreach)
    as (Hfirst & _).
  assert (0 ≤ rounds_begun evs) as Hpos by (unfold rounds_begun; lia).
  split.
  - assert (last_round 1 nd) as Hinv by (by split_and!).
    destruct (exec_last_round p _ _ _ _ Hinv H) as (_ & _ & Hm & _). lia.
  - intros Hno.
    assert (last_round 0 nd) as Hinv by (by split_and!).
    destruct (exec_last_round p _ _ _ _ Hinv H) as (_ & _ & Hm & _). lia.
Qed.

Lemma one_round_after_stop_witness :
  let p := mkParams 0 2 0 V0 false 3000 in
  rounds_begun [TimerFired 0; GetStart; Delivered 0 1 RequestError; GetStart]
  ≤ 1.
Proof.
  intros p.
  apply (one_round_after_stop p [GetStart; GetStop]
           (mkNode (mkNodeState true (Some V0) (Some false) (Some 0))
              false [] [AwaitTimer])
           [TimerFired 0; GetStart; Delivered 0 1 RequestError; GetStart]
           (mkNode (mkNodeState true (Some V1) (Some true) (Some 1))
              true [] [Returned; Returned])).
  - vm_compute; reflexivity.
  - reflexivity.
  - vm_compute; reflexivity.
Defined.

(** ** The votes of a run *)




Lemma run_forget_messages p : ∀ evs nd,
  (λ r, (forget_messages r.1, posts r.2)) <$> run p nd evs
  = (λ r, (forget_messages r.1, posts r.2))
      <$> run p (forget_messages nd) (without_messages evs).
Proof.
  induction evs as [|ev evs IH]; intros nd; [done|].
  unfold without_messages in *.
  destruct (is_message ev) eqn:Hev.
  - rewrite filter_cons_False by (by rewrite Hev).
    destruct ev; simplify_eq.
    destruct (step p nd (PostMessage body)) as [[nd1 out1]|] eqn:E; [|done].
    rewrite (run_step _ _ _ _ _ _ E).
    rewrite <- (step_post_forget _ _ _ _ _ E), <- IH.
    destruct (step_output _ _ _ _ _ E) as (st & bd & ->).
    by destruct (run p nd1 evs) as [[]|].
  - rewrite filter_cons_True by done.
    pose proof (step_forget_messages p nd ev Hev) as Hs.
    destruct (step p nd ev) as [[nd1 out1]|] eqn:E; simpl in Hs.
    + rewrite (run_step _ _ _ _ _ _ E), (run_step _ _ _ _ _ _ Hs).
      specialize (IH nd1).
      destruct (run p nd1 evs) as [[n1 o1]|],
        (run p (forget_messages nd1)
           (filter (λ ev, is_message ev = false) evs)) as [[n2 o2]|];
        try done.
      assert (forget_messages n1 = forget_messages n2 ∧ posts o1 = posts o2)
        as [Hn Ho]
        by (unfold forget_messages, set_receivedMessages in *; simpl in *;
            split; congruence).
      simpl. unfold posts in *. by rewrite !filter_app, Hn, Ho.
    + simpl. by rewrite E, Hs.
Qed.

(** What a node sends does not depend on what it receives: two runs of
    a node from the same state that differ only in the messages posted
    to it both go through or both get stuck, and post the same votes
    in the same order. *)
Theorem votes_ignore_messages p nd evs1 evs2 :
  without_messages evs1 = without_messages evs2 →
  (λ r, posts r.2) <$> run p nd evs1 = (λ r, posts r.2) <$> run p nd evs2.
Proof.
  intros H.
  pose proof (run_forget_messages p evs1 nd) as H1.
  pose proof (run_forget_messages p evs2 nd) as H2.
  rewrite H, <- H2 in H1.
  destruct (run p nd evs1) as [[n1 o1]|], (run p nd evs2) as [[n2 o2]|];
    try done.
  simpl in *. congruence.
Qed.

Lemma votes_ignore_messages_witness :
  let p := mkParams 0 2 0 V0 false 3000 in
  (λ r, posts r.2) <$>
    run p (init p)
      [PostMessage (vote (Some V1) (Some 0)); GetStart; TimerFired 0]
  = (λ r, posts r.2) <$>
    run p (init p) [GetStart; TimerFired 0; PostMessage JNull].
Proof.
  intros p.
  apply (votes_ignore_messages p (init p)
           [PostMessage (vote (Some V1) (Some 0)); GetStart; TimerFired 0]
           [GetStart; TimerFired 0; PostMessage JNull]).
  reflexivity.
Defined.

(** ** The end of a round *)

Lemma exec_deliveries_any_order p tid : ∀ (ds : list (Z * Delivery)) pending nd,
  NoDup ds.*1 → ds.*1 ≡ₚ pending → ds ≠ [] →
  tasks nd !! tid = Some (AwaitBroadcast pending) →
  exec p nd ((λ d, Delivered tid d.1 d.2) <$> ds)
  = Some (after_broadcast p tid nd).
Proof.
  induction ds as [|[i how] rest IH]; intros pending nd Hnd Hperm Hne Ht;
    [done|].
  rewrite fmap_cons in Hnd, Hperm. simpl in Hnd, Hperm.
  apply NoDup_cons in Hnd as [Hi Hrest]. rewrite fmap_cons. simpl.
  assert (filter (λ j, j ≠ i) pending ≡ₚ rest.*1) as Hleft.
  { rewrite <- Hperm. rewrite filter_cons_False by (intros ?; done).
    by rewrite filter_ne_id. }
  assert (step p nd (Delivered tid i how)
          = Some (await_all p tid (filter (λ j, j ≠ i) pending) nd, []))
    as Hstep.
  { unfold step, delivered. rewrite Ht. rewrite decide_True; [done|].
    rewrite <- Hperm. apply list_elem_of_here. }
  rewrite (exec_step _ _ _ _ _ _ Hstep).
  destruct rest as [|d rest].
  - apply Permutation_nil_r in Hleft as ->. done.
  - destruct (filter (λ j, j ≠ i) pending) as [|j left] eqn:E.
    { symmetry in Hleft. by apply Permutation_nil_r in Hleft. }
    unfold await_all. rewrite (IH (j :: left)); [|done|done|done|].
    + by rewrite after_broadcast_set_tasks.
    + simpl. apply list_lookup_insert_eq. by eapply lookup_lt_Some.
Qed.

(** The deliveries of a broadcast may settle in any order and each in
    either way: once every pending peer has settled, once each, the
    invocation is at the end of its round in the same state ([k] one
    higher, back at the loop test), whatever the order and whether the
    deliveries succeeded or failed. *)
Theorem deliveries_in_any_order p tid (ds : list (Z * Delivery)) pending nd :
  NoDup ds.*1 → ds.*1 ≡ₚ pending → pending ≠ [] →
  tasks nd !! tid = Some (AwaitBroadcast pending) →
  exec p nd ((λ d, Delivered tid d.1 d.2) <$> ds)
  = Some (after_broadcast p tid nd) ∧
  k (currentState (after_broadcast p tid nd))
  = Some (to_number (k (currentState nd)) + 1).
Proof.
  intros Hnd Hperm Hne Ht. split.
  - apply (exec_deliveries_any_order p tid ds pending); [done..| |done].
    intros ->. by apply Permutation_nil_l in Hperm.
  - rewrite after_broadcast_eq.
    destruct (loop_test p (incr_k nd)); simpl; [done|].
    by rewrite k_force_finality.
Qed.

Lemma deliveries_in_any_order_witness :
  let p := mkParams 0 4 1 V0 false 3000 in
  let nd := mkNode (initialState p) true [] [AwaitBroadcast [1; 2; 3]] in
  exec p nd [Delivered 0 3 RequestError; Delivered 0 1 ResponseEnd;
             Delivered 0 2 RequestError]
  = Some (mkNode (mkNodeState false (Some V0) (Some false) (Some 1))
            true [] [AwaitTimer]).
Proof.
  intros p nd.
  apply (deliveries_in_any_order p 0%nat
           [(3, RequestError); (1, ResponseEnd); (2, RequestError)]
           [1; 2; 3] nd).
  - apply (bool_decide_unpack _). vm_compute. reflexivity.
  - apply (bool_decide_unpack _). vm_compute. reflexivity.
  - discriminate.
  - reflexivity.
Defined.

(** A stopped loop does end: when the node is killed while an
    invocation waits on the timer of a round, the events of that one
    round (the timer, then every peer's delivery) make the handler
    return; [k] has gone up once and the statements after the loop have
    set [decided] (and [x] to 1 when [2 * F < N]). *)
Theorem stopped_loop_returns p tid nd :
  killed (currentState nd) = true →
  tasks nd !! tid = Some AwaitTimer →
  ∃ nd',
    exec p nd (round_events p tid) = Some nd' ∧
    tasks nd' !! tid = Some Returned ∧
    killed (currentState nd') = true ∧
    k (currentState nd') = Some (to_number (k (currentState nd)) + 1) ∧
    decided (currentState nd') = Some (consensusPossible p) ∧
    x (currentState nd')
    = if consensusPossible p then Some V1 else x (currentState nd).
Proof.
  intros Hk Ht. exists (after_broadcast p tid nd).
  split; [by apply exec_round|].
  rewrite after_broadcast_killed by done. simpl.
  rewrite killed_force_finality, k_force_finality. simpl.
  split_and!; [|done|done|..].
  - apply list_lookup_insert_eq. by eapply lookup_lt_Some.
  - apply force_finality_decision.
  - unfold force_finality. by destruct (consensusPossible p).
Qed.

Lemma stopped_loop_returns_witness :
  let p := mkParams 0 3 2 V1 false 3000 in
  let nd := mkNode (mkNodeState true (Some V1) (Some false) (Some 4))
              false [] [AwaitTimer] in
  ∃ nd',
    exec p nd [TimerFired 0; Delivered 0 1 ResponseEnd;
               Delivered 0 2 ResponseEnd] = Some nd' ∧
    tasks nd' !! 0%nat = Some Returned ∧
    k (currentState nd') = Some 5 ∧
    decided (currentState nd') = Some false.
Proof.
  intros p nd.
  destruct (stopped_loop_returns p 0%nat nd eq_refl eq_refl)
    as (nd' & H & Ht & _ & Hk & Hd & _).
  exists nd'. split_and!; [exact H|exact Ht|exact Hk|exact Hd].
Defined.

(** ** The vote broadcast *)




